(** * Marathon photobooth backend: admission, orchestration and reapers

    A shallow embedding of [src/server.js].  The server is a single
    threaded event loop: every synchronous stretch of code between two
    [await]s is one atomic turn.  State that the source keeps in module
    level variables ([activeSessions], [kioskStats]) is threaded
    explicitly; what the outside world decides (the clock, the file
    system, the image model, the uuid generator) enters as an argument of
    the turn that observes it.

    The model is of one server process.  [src/ecosystem.config.js] starts
    two of them in cluster mode, each with its own copy of this state. *)

From Stdlib Require Import ZArith String List Lia Bool Sorted.
From stdpp Require Import base option list gmap strings fin_maps pretty.

Local Open Scope Z_scope.

(** ** JavaScript [Map]: string keys, insertion order kept *)

Module JsMap.
Section Ops.
Context {V : Type}.

Definition empty : list (string * V) := [].

Fixpoint get (k : string) (m : list (string * V)) : option V :=
  match m with
  | [] => None
  | (k', v) :: m' => if decide (k' = k) then Some v else get k m'
  end.

(* [Map.prototype.set]: an existing key keeps its position, a new key
   goes last. *)
Fixpoint set (k : string) (v : V) (m : list (string * V)) : list (string * V) :=
  match m with
  | [] => [(k, v)]
  | (k', v') :: m' =>
      if decide (k' = k) then (k, v) :: m' else (k', v') :: set k v m'
  end.

Definition delete (k : string) (m : list (string * V)) : list (string * V) :=
  filter (fun kv => kv.1 <> k) m.

Definition entries (m : list (string * V)) : list (string * V) := m.

Definition size (m : list (string * V)) : nat := length m.

End Ops.
End JsMap.

(** [Array.prototype.slice(-n)]: the last [n] elements. *)
Definition slice_last {A} (n : nat) (l : list A) : list A :=
  drop (length l - n)%nat l.

(** [String.prototype.slice(0, n)]. *)
Definition str_slice0 (n : nat) (s : string) : string := String.substring 0 n s.

(** A thrown value; every failure in this file is an [Error] and only its
    [message] is ever read. *)
Record JsError := Error { message : string }.

(** A settled promise. *)
Inductive Settled (A : Type) :=
| Fulfilled (v : A)
| Rejected (e : JsError).
Arguments Fulfilled {A} v.
Arguments Rejected {A} e.

(** Truthiness of an optional string: [undefined] and [''] are falsy. *)
Definition truthy_str (o : option string) : bool :=
  match o with
  | Some s => negb (String.eqb s "")
  | None => false
  end.

(** ** Session registry and kiosk statistics (server.js:33-40) *)

Inductive Status := processing | completed | failed.

#[global] Instance Status_eq_dec : EqDecision Status.
Proof. solve_decision. Defined.

(** The object stored in [activeSessions].  A field is [None] when the
    property is absent: [endTime], [outputFile] and [error] before the
    terminal write, and the fields of the opening write when the terminal
    write spreads a registry entry that is no longer there. *)
Record Session := mkSession {
  s_kioskId : option string;
  s_startTime : option Z;
  s_status : Status;
  s_backgroundId : option string;
  s_gender : option string;
  s_prominence : option string;
  s_endTime : option Z;
  s_outputFile : option string;
  s_error : option string
}.

(** One entry of [kioskStats]; [lastActive] is [null] until first use. *)
Record KioskStat := mkStat {
  total : nat;
  completed_count : nat;
  failed_count : nat;
  lastActive : option Z
}.

Definition stat0 : KioskStat :=
  {| total := 0; completed_count := 0; failed_count := 0; lastActive := None |}.

(** The allow-list: the four own properties of the [kioskStats] literal. *)
Definition kioskStats_init : gmap string KioskStat :=
  <["kiosk-1" := stat0]> (<["kiosk-2" := stat0]>
  (<["kiosk-3" := stat0]> (<["kiosk-4" := stat0]> ∅))).

(** ** Property lookup on an object literal

    [obj[key]] finds the own properties of the literal and then those of
    [Object.prototype]: its twelve standard members, all truthy, and
    whatever has been assigned to it since.  The one assignment this
    program can make is [lastActive] (see [pg_open]). *)
Definition Object_prototype_keys : list string :=
  [ "constructor"; "__defineGetter__"; "__defineSetter__"; "hasOwnProperty";
    "__lookupGetter__"; "__lookupSetter__"; "isPrototypeOf";
    "propertyIsEnumerable"; "toString"; "valueOf"; "__proto__"; "toLocaleString" ].

Inductive Lookup (A : Type) :=
| Own (a : A)
| Inherited
| Absent.
Arguments Own {A} a.
Arguments Inherited {A}.
Arguments Absent {A}.

Definition js_lookup {A} (prototype_lastActive : option Z) (obj : gmap string A)
    (key : string) : Lookup A :=
  match obj !! key with
  | Some a => Own a
  | None =>
      if bool_decide (key ∈ Object_prototype_keys)
         || (bool_decide (is_Some prototype_lastActive) && String.eqb key "lastActive")
      then Inherited
      else Absent
  end.

(** The mutable state of the module: the two registries, and
    [Object.prototype.lastActive] ([None] while it is not defined). *)
Record Server := mkServer {
  activeSessions : list (string * Session);
  kioskStats : gmap string KioskStat;
  prototype_lastActive : option Z
}.

Definition server_init : Server :=
  {| activeSessions := JsMap.empty; kioskStats := kioskStats_init;
     prototype_lastActive := None |}.

(** ** Background catalogue (server.js:163-271)

    Only [name] and [file] are kept; the remaining properties feed the
    prompt text and nothing else. *)
Record BackgroundInfo := mkBg { bg_name : string; bg_file : string }.

Definition BACKGROUNDS : gmap string BackgroundInfo :=
  list_to_map
    [ ("amsterdam750-flowermarket", mkBg "Historic Flower Market" "Amsterdam750-FlowerMarket.png");
      ("amsterdam750-goldenage", mkBg "Golden Age Harbor" "Amsterdam750-GoldenAgeV2.png");
      ("amsterdam750-rijksmuseum", mkBg "Rijksmuseum Celebration" "Amsterdam750-RijksmuseumV6.png");
      ("future-solarbridge", mkBg "Solar Bridge Run" "FutureofRunning-SolarBridge3.png");
      ("future-biodomes", mkBg "Canal Biodomes" "FutureofRunningBiodomes2.png");
      ("future-smartfinish", mkBg "Smart Stadium Finish" "FututeofRunning-SmartFinish6.png");
      ("tcs50-firstmarathon", mkBg "The First Marathon" "TCS50-FirstMarathon.png");
      ("tcs50-iamsterdam", mkBg "I Amsterdam" "TCS50-IamsterdamV4.png");
      ("tcs50-vondelpark", mkBg "Vondelpark" "TCS50-Vondelpark.png") ].

(** ** Generation core: [processGeneration] (server.js:488-583)

    Image bytes are opaque: a [Buffer] is its byte string. *)
Definition Buffer := string.

(** The arguments of one call. *)
Record Call := mkCall {
  c_fileBuffer : Buffer;
  c_mimetype : option string;
  c_backgroundId : string;
  c_gender : string;
  c_prominence : string;
  c_kioskId : string
}.

(** What one turn reads from its surroundings: [Date.now()] (also the
    instant of [new Date()]) and [generationQueue.size]. *)
Record Turn := mkTurn { now : Z; queue_size : nat }.

(** The locals that live across the [await]s of a call. *)
Record Frame := mkFrame {
  fr_call : Call;
  fr_sessionId : string;
  fr_startTime : Z
}.

(** A part of the first candidate of the model's answer: [part_data] is
    [part.inlineData?.data], the base64 text as the model sent it ([None]
    when absent), and [part_bytes] the bytes that
    [Buffer.from(part.inlineData.data, "base64")] makes of that text.  The
    decoder is the runtime's, so its result comes with the part; it may be
    empty for a text that is not (such as [====]). *)
Record Part := mkPart { part_data : option string; part_bytes : Buffer }.

(** What [applyOverlay] (server.js:125-160) meets on disk. *)
Inductive OverlayWorld :=
| OverlayMissing
| OverlayFails (e : JsError)
| OverlayComposite (png : Buffer).

(** [applyOverlay] never rejects: a missing asset and any error of the
    compositing library both give the input back. *)
Definition applyOverlay (w : OverlayWorld) (generatedImageBuffer : Buffer) : Buffer :=
  match w with
  | OverlayMissing => generatedImageBuffer
  | OverlayFails _ => generatedImageBuffer
  | OverlayComposite png => png
  end.

(** The [await] a call is suspended at. *)
Inductive Await :=
| AwReadFile (backgroundInfo : BackgroundInfo)
| AwPersonPart (backgroundInfo : BackgroundInfo)
| AwEnvPart (backgroundInfo : BackgroundInfo)
| AwGenerate
| AwOverlay (buffer : Buffer)
| AwWriteFile (filename : string) (buffer : Buffer).

(** The settlement that wakes a suspended call. *)
Inductive Event :=
| EvReadFile (r : Settled Buffer)
| EvInlineData
| EvGenerate (r : Settled (list Part))
| EvOverlay (w : OverlayWorld)
| EvWriteFile (r : Settled unit).

(** The object returned on success (its [success: true] and constant
    [message] are left out). *)
Record GenResult := mkGenResult {
  r_imageUrl : string;
  r_sessionId : string;
  r_kioskId : string;
  r_queueSize : nat;
  r_processingTime : Z
}.

Inductive Outcome :=
| Returned (r : GenResult)
| Thrown (e : JsError).

Inductive JobState :=
| Suspended (fr : Frame) (aw : Await)
| Finished (fr : Frame) (o : Outcome).

(** [kioskStats[kioskId]?.total !== undefined && (kioskStats[kioskId].total++)]
    and its two siblings: the guard holds exactly for the own properties
    of [kioskStats] (what is inherited from [Object.prototype] carries no
    counter), so each is an [alter]. *)
Definition bump_total (k : KioskStat) : KioskStat :=
  {| total := S (total k); completed_count := completed_count k;
     failed_count := failed_count k; lastActive := lastActive k |}.

Definition bump_completed (k : KioskStat) : KioskStat :=
  {| total := total k; completed_count := S (completed_count k);
     failed_count := failed_count k; lastActive := lastActive k |}.

Definition bump_failed (k : KioskStat) : KioskStat :=
  {| total := total k; completed_count := completed_count k;
     failed_count := S (failed_count k); lastActive := lastActive k |}.

Definition touch (t : Z) (k : KioskStat) : KioskStat :=
  {| total := total k; completed_count := completed_count k;
     failed_count := failed_count k; lastActive := Some t |}.

(** The object spread [{...activeSessions.get(sessionId), <fields>}]:
    spreading [undefined] contributes nothing. *)
Definition session_completed (base : option Session) (endTime : Z)
    (outputFile : string) : Session :=
  {| s_kioskId := base ≫= s_kioskId;
     s_startTime := base ≫= s_startTime;
     s_status := completed;
     s_backgroundId := base ≫= s_backgroundId;
     s_gender := base ≫= s_gender;
     s_prominence := base ≫= s_prominence;
     s_endTime := Some endTime;
     s_outputFile := Some outputFile;
     s_error := base ≫= s_error |}.

Definition session_failed (base : option Session) (error : string)
    (endTime : Z) : Session :=
  {| s_kioskId := base ≫= s_kioskId;
     s_startTime := base ≫= s_startTime;
     s_status := failed;
     s_backgroundId := base ≫= s_backgroundId;
     s_gender := base ≫= s_gender;
     s_prominence := base ≫= s_prominence;
     s_endTime := Some endTime;
     s_outputFile := base ≫= s_outputFile;
     s_error := Some error |}.

Definition session_opened (c : Call) (startTime : Z) : Session :=
  {| s_kioskId := Some (c_kioskId c);
     s_startTime := Some startTime;
     s_status := processing;
     s_backgroundId := Some (c_backgroundId c);
     s_gender := Some (c_gender c);
     s_prominence := Some (c_prominence c);
     s_endTime := None;
     s_outputFile := None;
     s_error := None |}.

(** Lines 489-504: the id and the clock are read, the kiosk counters are
    touched and the session is written, all before the [try].

    Line 494, [kioskStats[kioskId] && (kioskStats[kioskId].lastActive = new
    Date())], writes to whatever the lookup finds: an entry of [kioskStats],
    or something inherited.  For the kiosk id [__proto__] that is
    [Object.prototype] itself; the other inherited values are objects no
    lookup of this program reads [lastActive] from. *)
Definition pg_open (env : Turn) (sessionId : string) (c : Call) (srv : Server) : Server :=
  {| activeSessions :=
       JsMap.set sessionId (session_opened c (now env)) (activeSessions srv);
     kioskStats :=
       alter (touch (now env)) (c_kioskId c)
         (alter bump_total (c_kioskId c) (kioskStats srv));
     prototype_lastActive :=
       if String.eqb (c_kioskId c) "__proto__" then Some (now env)
       else prototype_lastActive srv |}.

(** Lines 567-582: the [catch] block. *)
Definition pg_catch (env : Turn) (fr : Frame) (error : JsError) (srv : Server)
    : JobState * Server :=
  (Finished fr (Thrown error),
   {| activeSessions :=
        JsMap.set (fr_sessionId fr)
          (session_failed (JsMap.get (fr_sessionId fr) (activeSessions srv))
             (message error) (now env))
          (activeSessions srv);
      kioskStats := alter bump_failed (c_kioskId (fr_call fr)) (kioskStats srv);
      prototype_lastActive := prototype_lastActive srv |}).

(** Lines 541-562: the session is completed and the result returned. *)
Definition pg_complete (env : Turn) (fr : Frame) (filename : string) (srv : Server)
    : JobState * Server :=
  (Finished fr (Returned
     {| r_imageUrl := "/outputs/" +:+ filename;
        r_sessionId := fr_sessionId fr;
        r_kioskId := c_kioskId (fr_call fr);
        r_queueSize := queue_size env;
        r_processingTime := now env - fr_startTime fr |}),
   {| activeSessions :=
        JsMap.set (fr_sessionId fr)
          (session_completed (JsMap.get (fr_sessionId fr) (activeSessions srv))
             (now env) filename)
          (activeSessions srv);
      kioskStats := alter bump_completed (c_kioskId (fr_call fr)) (kioskStats srv);
      prototype_lastActive := prototype_lastActive srv |}).

(** What [path.join] throws when handed [undefined]. *)
Definition path_type_error : JsError :=
  Error ("The " +:+ String (Ascii.ascii_of_nat 34) "path"
         +:+ String (Ascii.ascii_of_nat 34)
               " argument must be of type string. Received undefined").

(** The failure, if any, of lines 507-511.  An id the catalogue does not
    know throws at line 508; an id that only finds something inherited passes
    that test, has no [file], and makes [path.join] throw at line 511. *)
Definition resolve_background (prototype_lastActive : option Z) (backgroundId : string)
    : JsError + BackgroundInfo :=
  match js_lookup prototype_lastActive BACKGROUNDS backgroundId with
  | Own backgroundInfo => inr backgroundInfo
  | Inherited => inl path_type_error
  | Absent => inl (Error "Invalid background selection")
  end.

(** Lines 506-512: the background is resolved; a failure is thrown inside
    the [try], in the turn that opened the session. *)
Definition pg_resolve (env : Turn) (fr : Frame) (srv : Server) : JobState * Server :=
  match resolve_background (prototype_lastActive srv) (c_backgroundId (fr_call fr)) with
  | inr backgroundInfo => (Suspended fr (AwReadFile backgroundInfo), srv)
  | inl error => pg_catch env fr error srv
  end.

(** The first turn of a call; [sessionId] is what [uuidv4()] returned. *)
Definition processGeneration_invoke (env : Turn) (sessionId : string) (c : Call)
    (srv : Server) : JobState * Server :=
  pg_resolve env (mkFrame c sessionId (now env)) (pg_open env sessionId c srv).

(** The loop of lines 529-564 acts on the first part whose data text is
    truthy (line 530), and what it works with is the decoding of that text
    (line 531), whether that has bytes or not. *)
Fixpoint first_image (parts : list Part) : option Buffer :=
  match parts with
  | [] => None
  | p :: rest =>
      if truthy_str (part_data p) then Some (part_bytes p) else first_image rest
  end.

Definition output_filename (env : Turn) (fr : Frame) : string :=
  "marathon_" +:+ c_kioskId (fr_call fr) +:+ "_" +:+ pretty (now env) +:+ "_"
    +:+ str_slice0 8 (fr_sessionId fr) +:+ ".png".

(** A later turn of a call: the continuation after the [await] it was
    suspended at.  [None]: the settlement is not the awaited one. *)
Definition processGeneration_resume (env : Turn) (ev : Event) (fr : Frame)
    (aw : Await) (srv : Server) : option (JobState * Server) :=
  match aw, ev with
  | AwReadFile bg, EvReadFile (Fulfilled _) => Some (Suspended fr (AwPersonPart bg), srv)
  | AwReadFile _, EvReadFile (Rejected e) => Some (pg_catch env fr e srv)
  | AwPersonPart bg, EvInlineData => Some (Suspended fr (AwEnvPart bg), srv)
  | AwEnvPart _, EvInlineData => Some (Suspended fr AwGenerate, srv)
  | AwGenerate, EvGenerate (Rejected e) => Some (pg_catch env fr e srv)
  | AwGenerate, EvGenerate (Fulfilled parts) =>
      match first_image parts with
      | Some buffer => Some (Suspended fr (AwOverlay buffer), srv)
      | None => Some (pg_catch env fr (Error "No image generated") srv)
      end
  | AwOverlay buffer, EvOverlay w =>
      Some (Suspended fr (AwWriteFile (output_filename env fr) (applyOverlay w buffer)), srv)
  | AwWriteFile filename _, EvWriteFile (Fulfilled _) => Some (pg_complete env fr filename srv)
  | AwWriteFile _ _, EvWriteFile (Rejected e) => Some (pg_catch env fr e srv)
  | _, _ => None
  end.

(** ** The request handler of [POST /api/generate] (server.js:618-671) *)

Record UploadedFile := mkFile { buffer : Buffer; mimetype : option string }.

(** What the handler reads of a request: the [x-kiosk-id] header, the
    multipart text fields and the uploaded [selfie]. *)
Record Request := mkRequest {
  x_kiosk_id : option string;
  body_backgroundId : option string;
  body_gender : option string;
  body_prominence : option string;
  file : option UploadedFile
}.

(** [req.headers['x-kiosk-id'] || 'unknown'] (lines 53 and 619). *)
Definition kioskId_of (req : Request) : string :=
  match x_kiosk_id req with
  | Some s => if String.eqb s "" then "unknown" else s
  | None => "unknown"
  end.

Inductive Body :=
| BodyText (text : string)
| BodyError (error : string)
| BodyBusy (error : string) (queueSize : nat)
| BodyResult (r : GenResult)
| BodyFailure (error : string) (details : string) (kioskId : string).

Record Response := mkResponse { res_status : Z; res_body : Body }.

Inductive LogLine :=
| ConsoleLog (text : string)
| ConsoleError (label : string) (e : JsError).

(** What the handler does in its first turn: answer at once, or hand a
    task to [generationQueue.add] and wait for it. *)
Inductive HandlerTurn :=
| Respond (r : Response)
| QueueAdd (task : Call) (priority : Z).

Definition generate_handler (queueSize : nat) (req : Request) : HandlerTurn :=
  let kioskId := kioskId_of req in
  let prominence := default "medium" (body_prominence req) in
  match body_backgroundId req, body_gender req, file req with
  | Some backgroundId, Some gender, Some f =>
      if negb (truthy_str (Some backgroundId)) || negb (truthy_str (Some gender))
      then Respond (mkResponse 400 (BodyError "Missing required fields"))
      else if (10 <? queueSize)%nat
      then Respond (mkResponse 503 (BodyBusy "Server is busy, please try again" queueSize))
      else QueueAdd
             (mkCall (buffer f) (mimetype f) backgroundId gender prominence kioskId)
             (if String.eqb kioskId "kiosk-3" then 1 else 0)
  | _, _, _ => Respond (mkResponse 400 (BodyError "Missing required fields"))
  end.

(** The turn after [await generationQueue.add(...)]: [res.json(result)],
    or the [catch] of lines 663-670. *)
Definition generate_handler_settle (req : Request) (o : Outcome)
    : Response * list LogLine :=
  match o with
  | Returned r => (mkResponse 200 (BodyResult r), [])
  | Thrown error =>
      (mkResponse 500
         (BodyFailure "Failed to generate image" (message error) (kioskId_of req)),
       [ConsoleError ("[" +:+ kioskId_of req +:+ "] Error:") error])
  end.

(** ** Monitoring (server.js:674-693) *)

Record RecentSession := mkRecent {
  m_id : string;
  m_session : Session;
  m_duration : option Z
}.

(** [session.endTime ? session.endTime - session.startTime : null]; a
    missing [startTime] gives [NaN], which [res.json] writes as [null]. *)
Definition duration_of (s : Session) : option Z :=
  match s_endTime s with
  | Some e =>
      if e =? 0 then None
      else match s_startTime s with
           | Some b => Some (e - b)
           | None => None
           end
  | None => None
  end.

Definition recent_entry (e : string * Session) : RecentSession :=
  {| m_id := str_slice0 8 e.1; m_session := e.2; m_duration := duration_of e.2 |}.

Record MonitorReport := mkMonitor {
  mon_kiosks : gmap string KioskStat;
  mon_queueSize : nat;
  mon_queuePending : nat;
  mon_totalSessions : nat;
  mon_recentSessions : list RecentSession
}.

Definition monitor (queueSize queuePending : nat) (srv : Server) : MonitorReport :=
  {| mon_kiosks := kioskStats srv;
     mon_queueSize := queueSize;
     mon_queuePending := queuePending;
     mon_totalSessions := JsMap.size (activeSessions srv);
     mon_recentSessions :=
       recent_entry <$> slice_last 20 (JsMap.entries (activeSessions srv)) |}.

(** ** Session reaper (server.js:727-739) *)

Definition session_is_old (oneHourAgo : Z) (s : Session) : bool :=
  match s_startTime s with
  | Some t => t <? oneHourAgo
  | None => false
  end.

Definition reap_sessions (now : Z) (sessions : list (string * Session))
    : list (string * Session) * nat :=
  let oneHourAgo := now - 60 * 60 * 1000 in
  fold_left
    (fun (acc : list (string * Session) * nat) (e : string * Session) =>
       if session_is_old oneHourAgo e.2
       then (JsMap.delete e.1 acc.1, S acc.2)
       else acc)
    (JsMap.entries sessions) (sessions, 0%nat).

(** ** Artifact reaper (server.js:742-760)

    A directory entry together with what [fs.stat] and [fs.unlink] will
    answer for it during the sweep. *)
Record DirEntry := mkEntry {
  e_name : string;
  e_stat : Settled Z;
  e_unlink : Settled unit
}.

Definition maxAge : Z := 4 * 60 * 60 * 1000.

(** The [for] loop of lines 749-756: the names deleted, and the error
    that left the loop, if any. *)
Fixpoint sweep_files (now : Z) (files : list DirEntry) : list string * option JsError :=
  match files with
  | [] => ([], None)
  | f :: rest =>
      match e_stat f with
      | Rejected e => ([], Some e)
      | Fulfilled mtimeMs =>
          if maxAge <? now - mtimeMs then
            match e_unlink f with
            | Rejected e => ([], Some e)
            | Fulfilled _ =>
                let r := sweep_files now rest in (e_name f :: r.1, r.2)
            end
          else sweep_files now rest
      end
  end.

Record SweepReport := mkSweep {
  sw_deleted : list string;
  sw_log : list LogLine
}.

(** The scheduled job: the whole body sits in one [try]; the [catch]
    logs and returns. *)
Definition artifact_reaper (now : Z) (readdir : Settled (list DirEntry)) : SweepReport :=
  match readdir with
  | Rejected e => mkSweep [] [ConsoleError "Cleanup error:" e]
  | Fulfilled files =>
      let r := sweep_files now files in
      mkSweep r.1
        (((fun n => ConsoleLog ("Deleted old file: " +:+ n)) <$> r.1)
         ++ match r.2 with
            | Some e => [ConsoleError "Cleanup error:" e]
            | None => []
            end)
  end.

(** ** The event loop: calls of [processGeneration] in flight

    [sys_jobs] holds the calls suspended at an [await], by session id;
    [sys_issued] is the set of ids [uuidv4()] has returned so far, which
    it never returns again. *)
Record System := mkSystem {
  sys_server : Server;
  sys_jobs : gmap string (Frame * Await);
  sys_issued : gset string
}.

Definition system_init : System :=
  {| sys_server := server_init; sys_jobs := ∅; sys_issued := ∅ |}.

(** One turn of the loop: the queue starts a task (a new call), a
    suspended call is woken, or the session reaper's timer fires. *)
Inductive Action :=
| ActInvoke (env : Turn) (sessionId : string) (c : Call)
| ActResume (env : Turn) (sessionId : string) (ev : Event)
| ActReapSessions (now : Z).

(** The loop after a turn of the call of session [sessionId]: the call
    is suspended again, or over. *)
Definition sys_settle (sessionId : string) (r : JobState * Server) (S : System) : System :=
  match r.1 with
  | Suspended fr aw =>
      {| sys_server := r.2;
         sys_jobs := <[sessionId := (fr, aw)]> (sys_jobs S);
         sys_issued := sys_issued S |}
  | Finished _ _ =>
      {| sys_server := r.2;
         sys_jobs := delete sessionId (sys_jobs S);
         sys_issued := sys_issued S |}
  end.

Definition sys_step (a : Action) (S : System) : option System :=
  match a with
  | ActInvoke env sessionId c =>
      if decide (sessionId ∈ sys_issued S) then None
      else Some (sys_settle sessionId
                   (processGeneration_invoke env sessionId c (sys_server S))
                   {| sys_server := sys_server S; sys_jobs := sys_jobs S;
                      sys_issued := {[sessionId]} ∪ sys_issued S |})
  | ActResume env sessionId ev =>
      match sys_jobs S !! sessionId with
      | Some (fr, aw) =>
          match processGeneration_resume env ev fr aw (sys_server S) with
          | Some r => Some (sys_settle sessionId r S)
          | None => None
          end
      | None => None
      end
  | ActReapSessions now =>
      Some {| sys_server :=
                {| activeSessions := (reap_sessions now (activeSessions (sys_server S))).1;
                   kioskStats := kioskStats (sys_server S);
                   prototype_lastActive := prototype_lastActive (sys_server S) |};
              sys_jobs := sys_jobs S;
              sys_issued := sys_issued S |}
  end.

Fixpoint sys_run (acts : list Action) (S : System) : option System :=
  match acts with
  | [] => Some S
  | a :: rest =>
      match sys_step a S with
      | Some S' => sys_run rest S'
      | None => None
      end
  end.

(** The turns that belong to a job (a call of [processGeneration]). *)
Definition is_job_action (a : Action) : bool :=
  match a with
  | ActInvoke _ _ _ | ActResume _ _ _ => true
  | ActReapSessions _ => false
  end.

Definition terminal (s : Session) : Prop := s_status s <> processing.

(** Calls of kiosk [k] that are suspended, i.e. submitted and not yet at
    their terminal write. *)
Definition in_flight (k : string) (jobs : gmap string (Frame * Await)) : nat :=
  size (filter (fun kv : string * (Frame * Await) => c_kioskId (fr_call kv.2.1) = k) jobs).

(** ** Rate limiter: [kioskLimiter] (server.js:49-57)

    The source only configures the limiter; the options are transcribed
    as they stand. *)
Module RateLimit.

Record Options := mkOptions {
  windowMs : Z;
  max : nat;
  keyGenerator : Request -> string;
  message : string;
  standardHeaders : bool;
  legacyHeaders : bool
}.

(** What the middleware does with a request: pass it on, or answer it. *)
Inductive Verdict :=
| Admit
| Refuse (r : Response).

(** Modelled from the spec: what a rejected request receives.  The
    middleware that builds it (package express-rate-limit) is not part of
    the sources; the spec calls it a structured HTTP 429-equivalent answer,
    and its text is the [message] option that the source passes.  Whether
    the answer names the key is what C8 asks, so it is not built in. *)
Definition refusal (o : Options) : Response :=
  mkResponse 429 (BodyText (message o)).

(** Modelled from the spec: the admission rule of the limiter (package
    express-rate-limit, not part of the sources).  The limiter keeps, per
    key, the instants of the requests it admitted; on a request it drops
    the instants that left the trailing window and admits when fewer than
    [max] remain. *)
Definition hit (o : Options) (t : Z) (req : Request) (st : gmap string (list Z))
    : Verdict * gmap string (list Z) :=
  let key := keyGenerator o req in
  let recent := filter (fun s => t - windowMs o < s) (default [] (st !! key)) in
  if decide (length recent < max o)%nat
  then (Admit, <[key := recent ++ [t]]> st)
  else (Refuse (refusal o), <[key := recent]> st).

(** A run of requests (instant, request), oldest first; the second
    component collects (instant, key) of every admitted one. *)
Fixpoint run (o : Options) (reqs : list (Z * Request))
    (st : gmap string (list Z)) (admitted : list (Z * string))
    : gmap string (list Z) * list (Z * string) :=
  match reqs with
  | [] => (st, admitted)
  | (t, req) :: rest =>
      match hit o t req st with
      | (Admit, st') => run o rest st' (admitted ++ [(t, keyGenerator o req)])
      | (Refuse _, st') => run o rest st' admitted
      end
  end.

(** Admitted requests of [key] inside the window that trails [t]. *)
Definition admitted_in_window (o : Options) (t : Z) (key : string)
    (admitted : list (Z * string)) : nat :=
  length (filter (fun a : Z * string => a.2 = key /\ t - windowMs o < a.1) admitted).

End RateLimit.

Definition kioskLimiter : RateLimit.Options :=
  {| RateLimit.windowMs := 60 * 1000;
     RateLimit.max := 5;
     RateLimit.keyGenerator := kioskId_of;
     RateLimit.message := "Too many requests from this kiosk, please wait";
     RateLimit.standardHeaders := true;
     RateLimit.legacyHeaders := false |}.

(** ** Bounded job queue: [generationQueue] (server.js:42-47) *)
Module PQueue.

Record Options := mkOptions {
  concurrency : nat;
  interval : Z;
  intervalCap : nat
}.

(** Modelled from the spec: the state of the bounded job queue (package
    p-queue, not part of the sources): the backlog in dequeuing order with
    each task's priority, the tasks executing, the current time bucket
    ([None] before the first start is considered) with the number of tasks
    started in it, and a log of every start. *)
Record t := mkQueue {
  waiting : list (Z * nat);
  running : list nat;
  bucket : option Z;
  started : nat;
  starts : list (nat * Z)
}.

Definition init : t :=
  {| waiting := []; running := []; bucket := None; started := 0; starts := [] |}.

(** [generationQueue.size]: queued, not yet started. *)
Definition size (q : t) : nat := length (waiting q).

(** [generationQueue.pending]: executing. *)
Definition pending (q : t) : nat := length (running q).

(** Modelled from the spec: a higher priority goes ahead of lower ones
    that arrived earlier, never ahead of an equal one. *)
Fixpoint enqueue (p : Z) (task : nat) (l : list (Z * nat)) : list (Z * nat) :=
  match l with
  | [] => [(p, task)]
  | (p', task') :: rest =>
      if p' <? p then (p, task) :: l else (p', task') :: enqueue p task rest
  end.

(** Modelled from the spec: buckets are the fixed stretches of length
    [interval]; entering a new one resets the count of starts. *)
Definition roll (o : Options) (now : Z) (q : t) : t :=
  if decide (bucket q = Some (now / interval o)) then q
  else {| waiting := waiting q; running := running q;
          bucket := Some (now / interval o); started := 0; starts := starts q |}.

(** Modelled from the spec: the head of the backlog starts when a
    concurrency slot and a pacing token are both free. *)
Definition try_start (o : Options) (now : Z) (q : t) : option t :=
  let q := roll o now q in
  match waiting q with
  | (_, task) :: rest =>
      if decide (pending q < concurrency o /\ started q < intervalCap o)%nat
      then Some {| waiting := rest; running := task :: running q;
                   bucket := bucket q; started := S (started q);
                   starts := (task, now) :: starts q |}
      else None
  | [] => None
  end.

(** Modelled from the spec: tasks start one after the other for as long
    as the two constraints allow ([fuel] bounds the number of starts by the
    length of the backlog). *)
Fixpoint pump (o : Options) (now : Z) (fuel : nat) (q : t) : t :=
  match fuel with
  | O => q
  | S n =>
      match try_start o now q with
      | Some q' => pump o now n q'
      | None => q
      end
  end.

(** Modelled from the spec: what happens to the queue.  [Add] is
    [add(task, priority)], [Done] the settling of a task that was started,
    [Tick] a wake-up of the queue's own timer. *)
Inductive Event :=
| Add (task : nat) (priority : Z)
| Done (task : nat)
| Tick.

(** Modelled from the spec: the queue reacts to a submission, to the end
    of a task and to the passing of time, and then starts what it may. *)
Definition step (o : Options) (now : Z) (e : Event) (q : t) : t :=
  let q1 :=
    match e with
    | Add task p =>
        {| waiting := enqueue p task (waiting q); running := running q;
           bucket := bucket q; started := started q; starts := starts q |}
    | Done task =>
        {| waiting := waiting q; running := List.remove Nat.eq_dec task (running q);
           bucket := bucket q; started := started q; starts := starts q |}
    | Tick => q
    end in
  pump o now (length (waiting q1)) q1.

(** A history of the queue: (instant, event), oldest first. *)
Fixpoint run (o : Options) (evs : list (Z * Event)) (q : t) : t :=
  match evs with
  | [] => q
  | (now, e) :: rest => run o rest (step o now e q)
  end.

(** Starts logged in bucket [b]. *)
Definition started_in (o : Options) (b : Z) (log : list (nat * Z)) : nat :=
  length (filter (fun s : nat * Z => s.2 / interval o = b) log).

End PQueue.

Definition generationQueue : PQueue.Options :=
  {| PQueue.concurrency := 2; PQueue.interval := 1000; PQueue.intervalCap := 3 |}.


(** ** Vocabulary of the statements *)

(** The error, if any, that the body of the artifact loop raises on [f]. *)
Definition entry_error (now : Z) (f : DirEntry) : option JsError :=
  match e_stat f with
  | Rejected e => Some e
  | Fulfilled mtimeMs =>
      if maxAge <? now - mtimeMs then
        match e_unlink f with
        | Rejected e => Some e
        | Fulfilled _ => None
        end
      else None
  end.

(** An artifact past the age threshold. *)
Definition is_old (now : Z) (f : DirEntry) : Prop :=
  exists mtimeMs, e_stat f = Fulfilled mtimeMs /\ maxAge < now - mtimeMs.

#[global] Instance is_old_dec now f : Decision (is_old now f).
Proof.
  unfold is_old. destruct (e_stat f) as [m|e].
  - destruct (decide (maxAge < now - m)) as [H|H].
    + left. eauto.
    + right. intros (m' & [= <-] & ?). done.
  - right. intros (m' & [=] & _).
Defined.

Definition old_names (now : Z) (files : list DirEntry) : list string :=
  e_name <$> filter (is_old now) files.

(** The request carries what line 625 asks for. *)
Definition has_required_fields (req : Request) : Prop :=
  truthy_str (body_backgroundId req) = true
  /\ truthy_str (body_gender req) = true
  /\ is_Some (file req).

(** A turn of a job: the first one, or the continuation after an [await]. *)
Inductive JobTurn :=
| TInvoke (sessionId : string) (c : Call)
| TResume (fr : Frame) (aw : Await) (ev : Event).

Definition job_turn (env : Turn) (k : JobTurn) (srv : Server) : option (JobState * Server) :=
  match k with
  | TInvoke sessionId c => Some (processGeneration_invoke env sessionId c srv)
  | TResume fr aw ev => processGeneration_resume env ev fr aw srv
  end.

Definition turn_frame (env : Turn) (k : JobTurn) : Frame :=
  match k with
  | TInvoke sessionId c => mkFrame c sessionId (now env)
  | TResume fr _ _ => fr
  end.

(** The failure, if any, that the turn meets in steps 1 to 4: a
    background id that does not resolve or an unreadable background file, a
    rejected or empty answer of the image model, a rejected write of the
    artifact.  (Step 3, the overlay, has no failure.) *)
Definition turn_failure (env : Turn) (k : JobTurn) (srv : Server) : option JsError :=
  match k with
  | TInvoke sessionId c =>
      match resolve_background
              (prototype_lastActive (pg_open env sessionId c srv)) (c_backgroundId c) with
      | inr _ => None
      | inl error => Some error
      end
  | TResume _ (AwReadFile _) (EvReadFile (Rejected e)) => Some e
  | TResume _ AwGenerate (EvGenerate (Rejected e)) => Some e
  | TResume _ AwGenerate (EvGenerate (Fulfilled parts)) =>
      match first_image parts with
      | Some _ => None
      | None => Some (Error "No image generated")
      end
  | TResume _ (AwWriteFile _ _) (EvWriteFile (Rejected e)) => Some e
  | TResume _ _ _ => None
  end.

(** The server as the turn's [try] block finds it. *)
Definition turn_entry (env : Turn) (k : JobTurn) (srv : Server) : Server :=
  match k with
  | TInvoke sessionId c => pg_open env sessionId c srv
  | TResume _ _ _ => srv
  end.

(** What the [catch] block leaves behind for the job of frame [fr] that
    failed with [e]: its session is [failed] with the error's message and
    an end time, other sessions are as before; the failed counter of its
    kiosk, when the kiosk has an entry, is one higher and nothing else in
    the statistics has changed. *)
Definition failure_recorded (env : Turn) (fr : Frame) (e : JsError)
    (before after : Server) : Prop :=
  (exists s, JsMap.get (fr_sessionId fr) (activeSessions after) = Some s
     /\ s_status s = failed /\ s_error s = Some (message e)
     /\ s_endTime s = Some (now env))
  /\ (forall sid, sid <> fr_sessionId fr ->
        JsMap.get sid (activeSessions after) = JsMap.get sid (activeSessions before))
  /\ match kioskStats before !! c_kioskId (fr_call fr) with
     | Some st =>
         exists st', kioskStats after !! c_kioskId (fr_call fr) = Some st'
           /\ failed_count st' = S (failed_count st)
           /\ total st' = total st /\ completed_count st' = completed_count st
           /\ lastActive st' = lastActive st
     | None => kioskStats after = kioskStats before
     end
  /\ (forall k, k <> c_kioskId (fr_call fr) -> kioskStats after !! k = kioskStats before !! k).

(** How the rest of a turn can end for the job of frame [fr], from the
    server [srv] its [try] block runs on: suspended again with the server
    untouched, through the completing write, or through the [catch]. *)
Definition continuation_result (env : Turn) (fr : Frame) (srv : Server)
    (r : JobState * Server) : Prop :=
  (exists aw, r = (Suspended fr aw, srv))
  \/ (exists filename, r = pg_complete env fr filename srv)
  \/ (exists e, r = pg_catch env fr e srv).

(** The system right after lines 489-504 of a new call: the session is
    written, the counters are touched and the call is in flight.  (The turn
    is not over yet; the [await] recorded here is a placeholder that the
    rest of the turn overwrites.) *)
Definition sys_open (env : Turn) (sessionId : string) (c : Call) (S : System) : System :=
  {| sys_server := pg_open env sessionId c (sys_server S);
     sys_jobs := <[sessionId := (mkFrame c sessionId (now env), AwGenerate)]> (sys_jobs S);
     sys_issued := {[sessionId]} ∪ sys_issued S |}.

Definition sessions_of (S : System) : list (string * Session) :=
  activeSessions (sys_server S).

Definition stats_of (S : System) : gmap string KioskStat :=
  kioskStats (sys_server S).

(** What holds of every state the loop reaches. *)
Record sys_inv (S : System) : Prop := mkInv {
  inv_frame : forall sid fr aw,
    sys_jobs S !! sid = Some (fr, aw) -> fr_sessionId fr = sid;
  inv_jobs_issued : forall sid,
    is_Some (sys_jobs S !! sid) -> sid ∈ sys_issued S;
  inv_sessions_issued : forall sid,
    is_Some (JsMap.get sid (sessions_of S)) -> sid ∈ sys_issued S;
  inv_suspended_processing : forall sid fr aw s,
    sys_jobs S !! sid = Some (fr, aw) ->
    JsMap.get sid (sessions_of S) = Some s -> s_status s = processing;
  inv_stats : forall k st,
    stats_of S !! k = Some st ->
    total st = (completed_count st + failed_count st + in_flight k (sys_jobs S))%nat;
  inv_allow_list : dom (stats_of S) = dom kioskStats_init
}.

(** The job of session [sid] is over and left [s] behind: no call is in
    flight for it, its id is spent, and the registry holds [s] for it
    unless the session reaper has removed it. *)
Definition settled_as (sid : string) (s : Session) (S : System) : Prop :=
  sid ∈ sys_issued S
  /\ sys_jobs S !! sid = None
  /\ (JsMap.get sid (sessions_of S) = Some s \/ JsMap.get sid (sessions_of S) = None).

(** The kiosk ids of the allow-list. *)
Definition allow_list : list string := ["kiosk-1"; "kiosk-2"; "kiosk-3"; "kiosk-4"].

(** ** A sample run

    Kiosk 2 submits a job that goes all the way through and one that names
    an unknown background; the session reaper fires two hours later. *)
Definition sample_call (backgroundId : string) : Call :=
  mkCall "selfie-bytes" (Some "image/jpeg") backgroundId "female" "medium" "kiosk-2".

Definition sample_run : list Action :=
  [ ActInvoke (mkTurn 1000 0) "3f2a9c1e-0001" (sample_call "tcs50-vondelpark");
    ActInvoke (mkTurn 1001 0) "7b1d4e2a-0002" (sample_call "no-such-background");
    ActResume (mkTurn 1010 0) "3f2a9c1e-0001" (EvReadFile (Fulfilled "background-bytes"));
    ActResume (mkTurn 1011 0) "3f2a9c1e-0001" EvInlineData;
    ActResume (mkTurn 1012 0) "3f2a9c1e-0001" EvInlineData;
    ActResume (mkTurn 9000 0) "3f2a9c1e-0001"
      (EvGenerate (Fulfilled [mkPart None ""; mkPart (Some "cG5nLWJ5dGVz") "png-bytes"]));
    ActResume (mkTurn 9100 0) "3f2a9c1e-0001" (EvOverlay OverlayMissing);
    ActResume (mkTurn 9200 0) "3f2a9c1e-0001" (EvWriteFile (Fulfilled ())) ].

(** ** Vocabulary of the limiter and queue statements *)

(** The instants at which requests of [key] were admitted, oldest first. *)
Definition admitted_at (key : string) (admitted : list (Z * string)) : list Z :=
  (filter (fun a : Z * string => a.2 = key) admitted).*1.

(** From instant [T] on, what the limiter remembers of a key and the full
    record of its admitted requests show the same trailing window. *)
Definition limiter_inv (o : RateLimit.Options) (T : Z)
    (st : gmap string (list Z)) (admitted : list (Z * string)) : Prop :=
  forall key t, T <= t ->
    filter (fun s => t - RateLimit.windowMs o < s) (default [] (st !! key))
    = filter (fun s => t - RateLimit.windowMs o < s) (admitted_at key admitted).

(** What holds of the queue after events up to instant [T]. *)
Definition queue_inv (o : PQueue.Options) (T : Z) (q : PQueue.t) : Prop :=
  (PQueue.pending q <= PQueue.concurrency o)%nat
  /\ (PQueue.started q <= PQueue.intervalCap o)%nat
  /\ (forall b, (PQueue.started_in o b (PQueue.starts q) <= PQueue.intervalCap o)%nat)
  /\ match PQueue.bucket q with
     | None => PQueue.starts q = [] /\ PQueue.started q = 0%nat
     | Some b0 =>
         b0 <= T / PQueue.interval o
         /\ Forall (fun s : nat * Z => s.2 / PQueue.interval o <= b0) (PQueue.starts q)
         /\ PQueue.started_in o b0 (PQueue.starts q) = PQueue.started q
     end.

(** [haystack.includes(needle)]. *)
Fixpoint str_includes (needle haystack : string) : bool :=
  String.prefix needle haystack
  || match haystack with
     | EmptyString => false
     | String _ rest => str_includes needle rest
     end.

(** The texts a response body carries. *)
Definition body_texts (b : Body) : list string :=
  match b with
  | BodyText text => [text]
  | BodyError error => [error]
  | BodyBusy error _ => [error]
  | BodyResult r => [r_imageUrl r; r_sessionId r; r_kioskId r]
  | BodyFailure error details kioskId => [error; details; kioskId]
  end.

(** The response names [key] somewhere in its body. *)
Definition response_mentions (key : string) (r : Response) : bool :=
  existsb (str_includes key) (body_texts (res_body r)).

(** A sample load of the queue: three jobs at once, a priority job right
    after, two completions within the first second, then a timer tick in
    the next second. *)
Definition sample_load : list (Z * PQueue.Event) :=
  [ (0, PQueue.Add 1 0); (0, PQueue.Add 2 0); (0, PQueue.Add 3 0);
    (10, PQueue.Add 4 1); (500, PQueue.Done 1); (600, PQueue.Done 2);
    (1000, PQueue.Tick) ].

(** * Further parts of the server *)

(** ** CORS origin check (server.js:61-85)

    [None]: the origin is accepted; [Some e]: the callback receives [e]. *)
Definition allowedOrigins : list string :=
  [ "http://localhost:3000";
    "http://localhost:3001";
    "https://marathon-photobooth-frontend.railway.app";
    "https://marathon-photobooth.railway.app" ].

Definition cors_origin (origin : option string) : option JsError :=
  if negb (truthy_str origin) then None
  else
    let o := default "" origin in
    if bool_decide (o ∈ allowedOrigins)
       || str_includes "railway.app" o
       || str_includes "localhost" o
    then None
    else Some (Error "Not allowed by CORS").

(** ** Catalogue endpoint: [GET /api/backgrounds] (server.js:588-615)

    The catalogue in the order of [Object.entries(BACKGROUNDS)], with the
    [description] that the endpoint exposes. *)
Record CatalogueEntry := mkCat {
  cat_id : string;
  cat_info : BackgroundInfo;
  cat_description : string
}.

Definition BACKGROUNDS_entries : list CatalogueEntry :=
  [ mkCat "amsterdam750-flowermarket"
      (mkBg "Historic Flower Market" "Amsterdam750-FlowerMarket.png")
      "Historic Amsterdam canal with traditional Dutch houses, flower market scene";
    mkCat "amsterdam750-goldenage"
      (mkBg "Golden Age Harbor" "Amsterdam750-GoldenAgeV2.png")
      "Sepia-toned Amsterdam harbor from the Golden Age";
    mkCat "amsterdam750-rijksmuseum"
      (mkBg "Rijksmuseum Celebration" "Amsterdam750-RijksmuseumV6.png")
      "Sepia-toned vintage mararthon at the Rijksmuseum, no other runners or people in the background";
    mkCat "future-solarbridge"
      (mkBg "Solar Bridge Run" "FutureofRunning-SolarBridge3.png")
      "Futuristic bridge with solar panels and drone spectators";
    mkCat "future-biodomes"
      (mkBg "Canal Biodomes" "FutureofRunningBiodomes2.png")
      "Future Amsterdam with biodome structures along canals";
    mkCat "future-smartfinish"
      (mkBg "Smart Stadium Finish" "FututeofRunning-SmartFinish6.png")
      "High-tech stadium with robotic assistants and holographic finish line";
    mkCat "tcs50-firstmarathon"
      (mkBg "The First Marathon" "TCS50-FirstMarathon.png")
      "1970s Olympic Stadium finish line";
    mkCat "tcs50-iamsterdam"
      (mkBg "I Amsterdam" "TCS50-IamsterdamV4.png")
      "Modern marathon at the iconic I Amsterdam sign";
    mkCat "tcs50-vondelpark"
      (mkBg "Vondelpark" "TCS50-Vondelpark.png")
      "Green park setting with trees and pathways" ].

Record BackgroundData := mkData {
  bd_id : string;
  bd_name : string;
  bd_description : string;
  bd_thumbnail : string
}.

(** The three categories of the answer (their titles are constants). *)
Record Categories := mkCategories {
  amsterdam750 : list BackgroundData;
  futureofrunning : list BackgroundData;
  tcs50 : list BackgroundData
}.

Definition backgroundData (e : CatalogueEntry) : BackgroundData :=
  {| bd_id := cat_id e;
     bd_name := bg_name (cat_info e);
     bd_description := cat_description e;
     bd_thumbnail := "/backgrounds/" +:+ bg_file (cat_info e) |}.

(** The body of the [forEach]: one [push], or none. *)
Definition add_background (categories : Categories) (e : CatalogueEntry) : Categories :=
  if String.prefix "amsterdam750-" (cat_id e) then
    {| amsterdam750 := amsterdam750 categories ++ [backgroundData e];
       futureofrunning := futureofrunning categories;
       tcs50 := tcs50 categories |}
  else if String.prefix "future-" (cat_id e) then
    {| amsterdam750 := amsterdam750 categories;
       futureofrunning := futureofrunning categories ++ [backgroundData e];
       tcs50 := tcs50 categories |}
  else if String.prefix "tcs50-" (cat_id e) then
    {| amsterdam750 := amsterdam750 categories;
       futureofrunning := futureofrunning categories;
       tcs50 := tcs50 categories ++ [backgroundData e] |}
  else categories.

Definition api_backgrounds (entries : list CatalogueEntry) : Categories :=
  fold_left add_background entries (mkCategories [] [] []).

(** ** Kiosk status endpoint: [GET /api/kiosk/:kioskId/status]
    (server.js:696-708)

    [kioskStats[kioskId]] is an ordinary property lookup: it also finds
    what [Object.prototype] provides, which is truthy and has no counters.
    What the spread copies from such a value is left open here. *)
Inductive KioskStatusBody :=
| KioskStatus (kioskId : string) (stats : KioskStat) (queuePosition : nat)
| KioskStatusInherited (kioskId : string) (queuePosition : nat)
| KioskInvalid (error : string).

Definition kiosk_status (queueSize : nat) (kioskId : string) (srv : Server)
    : Z * KioskStatusBody :=
  match js_lookup (prototype_lastActive srv) (kioskStats srv) kioskId with
  | Own stats => (200, KioskStatus kioskId stats queueSize)
  | Inherited => (200, KioskStatusInherited kioskId queueSize)
  | Absent => (404, KioskInvalid "Invalid kiosk ID")
  end.

(** ** Vocabulary of the further statements *)

(** How far a call has come: the number of [await]s behind it. *)
Definition await_rank (aw : Await) : nat :=
  match aw with
  | AwReadFile _ => 0
  | AwPersonPart _ => 1
  | AwEnvPart _ => 2
  | AwGenerate => 3
  | AwOverlay _ => 4
  | AwWriteFile _ _ => 5
  end.

(** A call woken again and again, each time by the settlement it waits
    for; [None] when a settlement is not the awaited one or the call is
    already over. *)
Fixpoint job_resume_all (steps : list (Turn * Event)) (j : JobState) (srv : Server)
    : option (JobState * Server) :=
  match steps with
  | [] => Some (j, srv)
  | (env, ev) :: rest =>
      match j with
      | Suspended fr aw =>
          match processGeneration_resume env ev fr aw srv with
          | Some (j', srv') => job_resume_all rest j' srv'
          | None => None
          end
      | Finished _ _ => None
      end
  end.

(** The shape of a registered session, by status. *)
Definition session_wf (s : Session) : Prop :=
  match s_status s with
  | processing =>
      s_endTime s = None /\ s_outputFile s = None /\ s_error s = None
      /\ is_Some (s_kioskId s) /\ is_Some (s_startTime s)
  | completed =>
      is_Some (s_endTime s) /\ is_Some (s_outputFile s) /\ s_error s = None
  | failed =>
      is_Some (s_endTime s) /\ is_Some (s_error s) /\ s_outputFile s = None
  end.

(** The registry holds well-shaped sessions under distinct ids. *)
Definition registry_wf (sessions : list (string * Session)) : Prop :=
  NoDup sessions.*1 /\ Forall (fun e : string * Session => session_wf e.2) sessions.

(** The sessions the reaper removes at instant [now]. *)
Definition reaped_at (now : Z) (e : string * Session) : Prop :=
  session_is_old (now - 60 * 60 * 1000) e.2 = true.

#[global] Instance reaped_at_dec now e : Decision (reaped_at now e).
Proof. unfold reaped_at. apply _. Defined.

(** The entries whose id starts with [p], as the endpoint shows them. *)
Definition in_category (p : string) (entries : list CatalogueEntry) : list BackgroundData :=
  backgroundData <$> filter (fun e => String.prefix p (cat_id e) = true) entries.

(** What the completing write leaves behind for the job of frame [fr]:
    its session is [completed] with the artifact's name and an end time and
    keeps what the opening write stored (as far as the registry still held
    it), other sessions are as before; the completed counter of its kiosk,
    when the kiosk has an entry, is one higher and nothing else in the
    statistics has changed. *)
Definition success_recorded (env : Turn) (fr : Frame) (filename : string)
    (before after : Server) : Prop :=
  (exists s, JsMap.get (fr_sessionId fr) (activeSessions after) = Some s
     /\ s_status s = completed /\ s_outputFile s = Some filename
     /\ s_endTime s = Some (now env)
     /\ forall s0, JsMap.get (fr_sessionId fr) (activeSessions before) = Some s0 ->
          s_kioskId s = s_kioskId s0 /\ s_startTime s = s_startTime s0
          /\ s_backgroundId s = s_backgroundId s0 /\ s_gender s = s_gender s0
          /\ s_prominence s = s_prominence s0)
  /\ (forall sid, sid <> fr_sessionId fr ->
        JsMap.get sid (activeSessions after) = JsMap.get sid (activeSessions before))
  /\ match kioskStats before !! c_kioskId (fr_call fr) with
     | Some st =>
         exists st', kioskStats after !! c_kioskId (fr_call fr) = Some st'
           /\ completed_count st' = S (completed_count st)
           /\ total st' = total st /\ failed_count st' = failed_count st
           /\ lastActive st' = lastActive st
     | None => kioskStats after = kioskStats before
     end
  /\ (forall k, k <> c_kioskId (fr_call fr) -> kioskStats after !! k = kioskStats before !! k).

(** A run in which a job outlives its session: the session reaper fires
    two hours after the job started, while the image model is still busy. *)
Definition orphan_run : list Action :=
  [ ActInvoke (mkTurn 1000 0) "3f2a9c1e-0001" (sample_call "tcs50-vondelpark");
    ActResume (mkTurn 1010 0) "3f2a9c1e-0001" (EvReadFile (Fulfilled "background-bytes"));
    ActResume (mkTurn 1011 0) "3f2a9c1e-0001" EvInlineData;
    ActResume (mkTurn 1012 0) "3f2a9c1e-0001" EvInlineData;
    ActReapSessions 7201000;
    ActResume (mkTurn 7300000 0) "3f2a9c1e-0001"
      (EvGenerate (Fulfilled [mkPart (Some "cG5nLWJ5dGVz") "png-bytes"]));
    ActResume (mkTurn 7300100 0) "3f2a9c1e-0001" (EvOverlay OverlayMissing);
    ActResume (mkTurn 7300200 0) "3f2a9c1e-0001" (EvWriteFile (Fulfilled ()));
    ActReapSessions 90000000 ].

(** Counters that have only grown. *)
Definition stat_le (a b : KioskStat) : Prop :=
  (total a <= total b)%nat
  /\ (completed_count a <= completed_count b)%nat
  /\ (failed_count a <= failed_count b)%nat.

(** Among [acts] the queue starts a call of kiosk [k] at instant [t]. *)
Definition submitted_at (k : string) (t : Z) (acts : list Action) : Prop :=
  exists env sid c, ActInvoke env sid c ∈ acts /\ c_kioskId c = k /\ now env = t.

(** The entry of [k] after the turns [acts], compared with the one before. *)
Definition stats_grow (k : string) (acts : list Action)
    (before after : gmap string KioskStat) : Prop :=
  match before !! k with
  | Some st =>
      exists st', after !! k = Some st' /\ stat_le st st'
        /\ (lastActive st' = lastActive st
            \/ exists t, submitted_at k t acts /\ lastActive st' = Some t)
  | None => after !! k = None
  end.

(** * The test script (test-generations.js)

    The script fetches the catalogue from the server and requests three
    generations per background, one after the other.  What the server and
    the file system answer is supplied from outside: [results n] is what
    the call number [n] of [generateImage] returns. *)
Module TestScript.

Record TestConfig := mkConfig { cfg_gender : string; cfg_prominence : string }.

(** [CONFIG] (lines 9-22). *)
Definition kioskId : string := "test-script".
Definition testsPerBackground : nat := 3.
Definition requestDelay : Z := 2000.
Definition defaultConfigs : list TestConfig :=
  [ mkConfig "male" "medium";
    mkConfig "female" "medium";
    mkConfig "non-binary" "medium";
    mkConfig "male" "low";
    mkConfig "female" "high" ].

(** [getBackgrounds] (lines 67-94): the backgrounds of all categories, in
    the order of [Object.entries(categories)]; the empty list when the
    request fails or is answered with an error status. *)
Definition getBackgrounds (response : option Categories) : list BackgroundData :=
  match response with
  | Some categories =>
      amsterdam750 categories ++ futureofrunning categories ++ tcs50 categories
  | None => []
  end.

(** What [generateImage] returns; it catches whatever is thrown inside. *)
Inductive TestResult :=
| Success (filename : string) (processingTime : option Z)
| Failure (error : string).

Record BgCount := mkBgCount { bg_successful : nat; bg_failed : nat }.

(** [stats.byBackground], an object keyed by background id.  The key
    [__proto__] is no own property: assigning an object to it replaces the
    prototype, and reading it gives the prototype back. *)
Record ByBackground := mkBy {
  by_own : gmap string BgCount;
  by_proto : option BgCount
}.

Definition by_assign (id : string) (v : BgCount) (b : ByBackground) : ByBackground :=
  if String.eqb id "__proto__"
  then {| by_own := by_own b; by_proto := Some v |}
  else {| by_own := <[id := v]> (by_own b); by_proto := by_proto b |}.

(** [stats.byBackground[id].successful++] and the like.  The entry was
    assigned at the top of the enclosing iteration, so the lookup finds the
    own property, or the prototype for [__proto__]. *)
Definition by_update (f : BgCount -> BgCount) (id : string) (b : ByBackground)
    : ByBackground :=
  if String.eqb id "__proto__"
  then {| by_own := by_own b; by_proto := f <$> by_proto b |}
  else {| by_own := alter f id (by_own b); by_proto := by_proto b |}.

Record Stats := mkStats {
  st_total : nat;
  st_successful : nat;
  st_failed : nat;
  st_totalTime : Z;
  st_byBackground : ByBackground
}.

Definition stats_init : Stats :=
  {| st_total := 0; st_successful := 0; st_failed := 0; st_totalTime := 0;
     st_byBackground := mkBy ∅ None |}.

(** What the loop does to the outside: a call of [generateImage], or a
    pause. *)
Inductive Effect :=
| Generate (imageFile backgroundId : string) (config : TestConfig)
| Delay (ms : Z).

(** The variables of the loop; [calls] counts the calls of
    [generateImage] made so far. *)
Record Loop := mkLoop {
  stats : Stats;
  imageIndex : nat;
  calls : nat;
  trace : list Effect
}.

(** Lines 213-226: the accounting of one result. *)
Definition record_result (id : string) (r : TestResult) (s : Stats) : Stats :=
  match r with
  | Success _ processingTime =>
      {| st_total := S (st_total s);
         st_successful := S (st_successful s);
         st_failed := st_failed s;
         st_totalTime := st_totalTime s + default 0 processingTime;
         st_byBackground :=
           by_update (fun c => mkBgCount (S (bg_successful c)) (bg_failed c)) id
             (st_byBackground s) |}
  | Failure _ =>
      {| st_total := S (st_total s);
         st_successful := st_successful s;
         st_failed := S (st_failed s);
         st_totalTime := st_totalTime s;
         st_byBackground :=
           by_update (fun c => mkBgCount (bg_successful c) (S (bg_failed c))) id
             (st_byBackground s) |}
  end.

(** Lines 195-233: the body of the inner loop.  [None] stands for the
    [TypeError] that [path.join] throws when the image lookup gives
    [undefined]. *)
Definition test_body (images : list string) (results : nat -> TestResult)
    (nbg bgIndex : nat) (bg : BackgroundData) (l : Loop) (testNum : nat) : option Loop :=
  imageFile ← images !! (imageIndex l mod length images)%nat;
  config ← defaultConfigs !! (imageIndex l mod length defaultConfigs)%nat;
  let result := results (calls l) in
  Some {| stats := record_result (bd_id bg) result (stats l);
          imageIndex := S (imageIndex l);
          calls := S (calls l);
          trace :=
            trace l ++ Generate imageFile (bd_id bg) config
              :: (if (testNum <? testsPerBackground)%nat || (bgIndex <? nbg - 1)%nat
                  then [Delay requestDelay] else []) |}.

(** Lines 184-234: one iteration of the outer loop. *)
Definition background_body (images : list string) (results : nat -> TestResult)
    (nbg bgIndex : nat) (bg : BackgroundData) (l : Loop) : option Loop :=
  let l0 :=
    {| stats :=
         {| st_total := st_total (stats l);
            st_successful := st_successful (stats l);
            st_failed := st_failed (stats l);
            st_totalTime := st_totalTime (stats l);
            st_byBackground :=
              by_assign (bd_id bg) (mkBgCount 0 0) (st_byBackground (stats l)) |};
       imageIndex := imageIndex l;
       calls := calls l;
       trace := trace l |} in
  foldl (fun acc testNum => acc ≫= fun l => test_body images results nbg bgIndex bg l testNum)
    (Some l0) (seq 1 testsPerBackground).

Fixpoint backgrounds_loop (images : list string) (results : nat -> TestResult)
    (nbg bgIndex : nat) (rest : list BackgroundData) (l : Loop) : option Loop :=
  match rest with
  | [] => Some l
  | bg :: rest =>
      l' ← background_body images results nbg bgIndex bg l;
      backgrounds_loop images results nbg (S bgIndex) rest l'
  end.

Inductive RunResult :=
| NothingToDo
| Completed (l : Loop)
| Crashed.

(** [runTests] (lines 151-279), from the images found and the answer to
    the catalogue request on. *)
Definition runTests (images : list string) (response : option Categories)
    (results : nat -> TestResult) : RunResult :=
  if decide (length images = 0%nat) then NothingToDo
  else
    let backgrounds := getBackgrounds response in
    if decide (length backgrounds = 0%nat) then NothingToDo
    else
      match backgrounds_loop images results (length backgrounds) 0 backgrounds
              (mkLoop stats_init 0 0 []) with
      | Some l => Completed l
      | None => Crashed
      end.

(** The request number [i] of a run. *)
Definition request (images : list string) (backgrounds : list BackgroundData)
    (i : nat) : Effect :=
  Generate (default "" (images !! (i mod length images)%nat))
    (default "" (bd_id <$> backgrounds !! (i / testsPerBackground)%nat))
    (default (mkConfig "" "") (defaultConfigs !! (i mod length defaultConfigs)%nat)).

Definition is_success (r : TestResult) : bool :=
  match r with Success _ _ => true | Failure _ => false end.

Definition time_of (r : TestResult) : Z :=
  match r with Success _ t => default 0 t | Failure _ => 0 end.

(** The successes among the results number [from], ..., [from + n - 1]. *)
Definition successes (results : nat -> TestResult) (from n : nat) : nat :=
  length (filter (fun i => is_success (results i) = true) (seq from n)).

(** The processing times the results number 0, ..., [n - 1] report. *)
Fixpoint time_sum (results : nat -> TestResult) (n : nat) : Z :=
  match n with
  | O => 0
  | S n => time_sum results n + time_of (results n)
  end.

(** The requests number 0, ..., [n - 1], each followed by a pause. *)
Definition paced_requests (images : list string) (backgrounds : list BackgroundData)
    (n : nat) : list Effect :=
  flat_map (fun i => [request images backgrounds i; Delay requestDelay]) (seq 0 n).

(** The loop after [k] generations. *)
Definition loop_inv (images : list string) (backgrounds : list BackgroundData)
    (results : nat -> TestResult) (k : nat) (l : Loop) : Prop :=
  imageIndex l = k /\ calls l = k /\ st_total (stats l) = k
  /\ st_successful (stats l) = successes results 0 k
  /\ (st_successful (stats l) + st_failed (stats l) = k)%nat
  /\ st_totalTime (stats l) = time_sum results k
  /\ trace l
       ++ (if decide (k = (testsPerBackground * length backgrounds)%nat)
           then [Delay requestDelay] else [])
     = paced_requests images backgrounds k.

(** What one result does to the counts of its background. *)
Definition count_result (r : TestResult) (c : BgCount) : BgCount :=
  if is_success r then mkBgCount (S (bg_successful c)) (bg_failed c)
  else mkBgCount (bg_successful c) (S (bg_failed c)).

(** The counts of background number [i]: its three results are the
    results number [3 * i], [3 * i + 1] and [3 * i + 2]. *)
Definition bg_count (results : nat -> TestResult) (i : nat) : BgCount :=
  let s := successes results (testsPerBackground * i) testsPerBackground in
  mkBgCount s (testsPerBackground - s).

(** The per-background counts after the backgrounds [done]. *)
Definition by_inv (results : nat -> TestResult) (done : list BackgroundData)
    (b : ByBackground) : Prop :=
  (forall i bg, done !! i = Some bg -> bd_id bg <> "__proto__" ->
     by_own b !! bd_id bg = Some (bg_count results i))
  /\ by_own b !! "__proto__" = None.

End TestScript.

(** * Properties *)

(** ** Facts about [JsMap] *)
Section JsMapFacts.
Context {V : Type}.
Implicit Types (m : list (string * V)) (k : string) (v : V).

Lemma JsMap_get_set_eq k v m : JsMap.get k (JsMap.set k v m) = Some v.
Proof.
  induction m as [|[k' v'] m IH]; simpl.
  - by rewrite decide_True.
  - destruct (decide (k' = k)) as [->|Hne]; simpl.
    + by rewrite decide_True.
    + by rewrite decide_False.
Qed.

Lemma JsMap_get_set_ne k k' v m :
  k <> k' -> JsMap.get k' (JsMap.set k v m) = JsMap.get k' m.
Proof.
  intros Hne. induction m as [|[k0 v0] m IH]; simpl.
  - by rewrite decide_False.
  - destruct (decide (k0 = k)) as [->|Hk]; simpl.
    + by rewrite !decide_False.
    + destruct (decide (k0 = k')); [done | apply IH].
Qed.

Lemma JsMap_get_delete k k' m :
  JsMap.get k' (JsMap.delete k m)
  = if decide (k = k') then None else JsMap.get k' m.
Proof.
  unfold JsMap.delete. induction m as [|[k0 v0] m IH].
  - simpl. by destruct (decide (k = k')).
  - rewrite filter_cons. cbn [fst JsMap.get].
    destruct (decide (k0 <> k)) as [Hk|Hk]; cbn [JsMap.get].
    + destruct (decide (k0 = k')) as [->|]; [|apply IH].
      by rewrite decide_False.
    + apply dec_stable in Hk. subst k0. rewrite IH.
      by destruct (decide (k = k')).
Qed.

Lemma JsMap_set_fresh k v m :
  JsMap.get k m = None -> JsMap.set k v m = m ++ [(k, v)].
Proof.
  induction m as [|[k' v'] m IH]; simpl; [done|].
  destruct (decide (k' = k)); [done|]. intros H. by rewrite IH.
Qed.

End JsMapFacts.

(** ** Artifact reaper *)

Lemma sweep_files_clean now files :
  Forall (fun f => entry_error now f = None) files ->
  sweep_files now files = (old_names now files, None).
Proof.
  induction 1 as [|f files Hf _ IH]; [done|].
  unfold old_names in *. rewrite filter_cons. simpl.
  unfold entry_error in Hf. destruct (e_stat f) as [m|e] eqn:Hs; [|done].
  destruct (maxAge <? now - m) eqn:Hold.
  - destruct (e_unlink f); [|done]. rewrite IH. simpl.
    rewrite decide_True; [done|]. exists m. split; [done|]. by apply Z.ltb_lt.
  - rewrite IH. rewrite decide_False; [done|].
    intros (m' & Hm' & Hlt). rewrite Hs in Hm'. injection Hm' as <-.
    apply Z.ltb_ge in Hold. lia.
Qed.

Lemma sweep_files_failure now bad post e :
  entry_error now bad = Some e -> sweep_files now (bad :: post) = ([], Some e).
Proof.
  unfold entry_error. simpl. destruct (e_stat bad) as [m|e']; [|by intros [= ->]].
  destruct (maxAge <? now - m); [|done].
  destruct (e_unlink bad); [done|by intros [= ->]].
Qed.

Lemma sweep_files_app now pre rest :
  Forall (fun f => entry_error now f = None) pre ->
  sweep_files now (pre ++ rest)
  = (old_names now pre ++ (sweep_files now rest).1, (sweep_files now rest).2).
Proof.
  induction 1 as [|f files Hf _ IH]; simpl.
  - by destruct (sweep_files now rest).
  - unfold old_names in *. rewrite filter_cons.
    unfold entry_error in Hf. destruct (e_stat f) as [m|e] eqn:Hs; [|done].
    destruct (maxAge <? now - m) eqn:Hold.
    + destruct (e_unlink f); [|done]. rewrite IH. simpl.
      rewrite decide_True; [done|]. exists m. split; [done|]. by apply Z.ltb_lt.
    + rewrite IH. rewrite decide_False; [done|].
      intros (m' & Hm' & Hlt). rewrite Hs in Hm'. injection Hm' as <-.
      apply Z.ltb_ge in Hold. lia.
Qed.

(** With no failing file the sweep deletes every artifact past the age
    threshold and nothing else, and logs no error. *)
Lemma artifact_reaper_clean now files :
  Forall (fun f => entry_error now f = None) files ->
  artifact_reaper now (Fulfilled files)
  = mkSweep (old_names now files)
      ((fun n => ConsoleLog ("Deleted old file: " +:+ n)) <$> old_names now files).
Proof.
  intros H. unfold artifact_reaper. rewrite sweep_files_clean by done.
  simpl. by rewrite app_nil_r.
Qed.

(** C3, as the claim states it, fails: [a.png] cannot be examined, and
    [b.png], five hours old and deletable, is left on disk. *)
Lemma artifact_reaper_skips_after_failure :
  let a := mkEntry "a.png" (Rejected (Error "EACCES: permission denied")) (Fulfilled ()) in
  let b := mkEntry "b.png" (Fulfilled 0) (Fulfilled ()) in
  let now := 5 * 60 * 60 * 1000 in
  is_old now b /\ e_unlink b = Fulfilled ()
  /\ "b.png" ∉ sw_deleted (artifact_reaper now (Fulfilled [a; b])).
Proof.
  simpl. split; [|split; [done|]].
  - exists 0. split; [done|]. unfold maxAge. lia.
  - apply not_elem_of_nil.
Qed.

(** C3 (amended): the first failure to stat or delete a file ends the
    scan of that run.  The artifacts listed before the failing file that
    are past the 4-hour threshold have been deleted, the files listed after
    it are not examined, and the error is logged and swallowed: the sweep
    returns normally. *)
Theorem artifact_reaper_stops_at_first_failure now pre bad post e :
  Forall (fun f => entry_error now f = None) pre ->
  entry_error now bad = Some e ->
  artifact_reaper now (Fulfilled (pre ++ bad :: post))
  = mkSweep (old_names now pre)
      (((fun n => ConsoleLog ("Deleted old file: " +:+ n)) <$> old_names now pre)
       ++ [ConsoleError "Cleanup error:" e]).
Proof.
  intros Hpre Hbad. unfold artifact_reaper.
  rewrite sweep_files_app by done.
  rewrite (sweep_files_failure now bad post e Hbad). simpl.
  by rewrite app_nil_r.
Qed.

Lemma artifact_reaper_stops_at_first_failure_witness :
  artifact_reaper (5 * 60 * 60 * 1000)
    (Fulfilled ([mkEntry "old.png" (Fulfilled 0) (Fulfilled ())]
                ++ mkEntry "a.png" (Rejected (Error "EACCES")) (Fulfilled ())
                :: [mkEntry "b.png" (Fulfilled 0) (Fulfilled ())]))
  = mkSweep ["old.png"]
      [ConsoleLog "Deleted old file: old.png"; ConsoleError "Cleanup error:" (Error "EACCES")].
Proof.
  apply (artifact_reaper_stops_at_first_failure (5 * 60 * 60 * 1000)
           [mkEntry "old.png" (Fulfilled 0) (Fulfilled ())]
           (mkEntry "a.png" (Rejected (Error "EACCES")) (Fulfilled ()))
           [mkEntry "b.png" (Fulfilled 0) (Fulfilled ())] (Error "EACCES")).
  - repeat constructor.
  - reflexivity.
Defined.

(** ** The request handler *)

(** C4, as the claim states it, fails: the background file of a job
    cannot be read, and the 500 response repeats the file system's message,
    server path included, word for word in its [details]. *)
Lemma failure_response_repeats_error_message :
  let req := mkRequest (Some "kiosk-1") (Some "tcs50-vondelpark") (Some "female")
               None (Some (mkFile "selfie-bytes" (Some "image/jpeg"))) in
  let enoent :=
    Error "ENOENT: no such file or directory, open '/app/backgrounds/TCS50-Vondelpark.png'" in
  exists call priority fr aw srv1 srv2,
    generate_handler 0 req = QueueAdd call priority
    /\ processGeneration_invoke (mkTurn 1000 0) "0b9c2f1e-aaaa" call server_init
       = (Suspended fr aw, srv1)
    /\ processGeneration_resume (mkTurn 1005 0) (EvReadFile (Rejected enoent)) fr aw srv1
       = Some (Finished fr (Thrown enoent), srv2)
    /\ res_body (generate_handler_settle req (Thrown enoent)).1
       = BodyFailure "Failed to generate image"
           "ENOENT: no such file or directory, open '/app/backgrounds/TCS50-Vondelpark.png'"
           "kiosk-1".
Proof.
  cbn zeta. eexists _, _, _, _, _, _. split; [reflexivity|].
  split; [vm_compute; reflexivity|]. split; [vm_compute; reflexivity|].
  reflexivity.
Qed.

(** C4 (amended): for every job failure the handler answers with status
    500 and a body made of the generic text, the kiosk id and a [details]
    field that holds the underlying error's message verbatim; the error is
    also written to the server log. *)
Theorem failure_response_carries_details req e :
  let answer := generate_handler_settle req (Thrown e) in
  res_status answer.1 = 500
  /\ res_body answer.1
     = BodyFailure "Failed to generate image" (message e) (kioskId_of req)
  /\ answer.2 = [ConsoleError ("[" +:+ kioskId_of req +:+ "] Error:") e].
Proof.
  intros answer. subst answer. unfold generate_handler_settle.
  cbn [fst snd res_status res_body]. auto.
Qed.

Lemma generate_handler_fields queueSize req :
  has_required_fields req ->
  exists backgroundId gender f,
    body_backgroundId req = Some backgroundId /\ body_gender req = Some gender
    /\ file req = Some f
    /\ generate_handler queueSize req
       = if (10 <? queueSize)%nat
         then Respond (mkResponse 503 (BodyBusy "Server is busy, please try again" queueSize))
         else QueueAdd
                (mkCall (buffer f) (mimetype f) backgroundId gender
                   (default "medium" (body_prominence req)) (kioskId_of req))
                (if String.eqb (kioskId_of req) "kiosk-3" then 1 else 0).
Proof.
  intros (Hb & Hg & [f Hf]). unfold generate_handler.
  destruct (body_backgroundId req) as [b|]; [|done].
  destruct (body_gender req) as [g|]; [|done].
  rewrite Hf, Hb, Hg. simpl. by exists b, g, f.
Qed.

(** No request is handed to the queue while the backlog exceeds 10. *)
Lemma overloaded_never_enqueues queueSize req call priority :
  (10 < queueSize)%nat -> generate_handler queueSize req <> QueueAdd call priority.
Proof.
  intros Hq. unfold generate_handler.
  destruct (body_backgroundId req), (body_gender req), (file req); try done.
  destruct (_ || _); [done|].
  apply Nat.ltb_lt in Hq. by rewrite Hq.
Qed.

(** C6, as the claim states it, fails: with a backlog of 11 a submission
    that lacks [backgroundId] is answered 400 by the field check, which
    runs before the backlog gate, and not 503. *)
Lemma missing_fields_answered_before_gate :
  generate_handler 11
    (mkRequest (Some "kiosk-1") None (Some "female") None
       (Some (mkFile "selfie-bytes" (Some "image/jpeg"))))
  = Respond (mkResponse 400 (BodyError "Missing required fields")).
Proof. reflexivity. Qed.

(** C6 (amended): a submission that carries the required fields and
    arrives while the backlog exceeds 10 is answered at once with 503 and
    the current backlog size; with a backlog of 10 or less the gate lets it
    through to [generationQueue.add].  Whatever its fields, no submission
    arriving while the backlog exceeds 10 is added to the queue. *)
Theorem backlog_gate queueSize req :
  has_required_fields req ->
  ((10 < queueSize)%nat ->
     generate_handler queueSize req
     = Respond (mkResponse 503 (BodyBusy "Server is busy, please try again" queueSize)))
  /\ ((queueSize <= 10)%nat ->
        exists call priority, generate_handler queueSize req = QueueAdd call priority)
  /\ (forall req' call priority,
        (10 < queueSize)%nat -> generate_handler queueSize req' <> QueueAdd call priority).
Proof.
  intros Hreq.
  destruct (generate_handler_fields queueSize req Hreq) as (b & g & f & _ & _ & _ & ->).
  split; [|split].
  - intros Hq. apply Nat.ltb_lt in Hq. by rewrite Hq.
  - intros Hq. apply Nat.ltb_ge in Hq. rewrite Hq. eauto.
  - intros req' call priority Hq. by apply overloaded_never_enqueues.
Qed.

Lemma backlog_gate_witness :
  let req := mkRequest (Some "kiosk-2") (Some "tcs50-vondelpark") (Some "female")
               (Some "low") (Some (mkFile "selfie-bytes" (Some "image/jpeg"))) in
  ((10 < 11)%nat ->
     generate_handler 11 req
     = Respond (mkResponse 503 (BodyBusy "Server is busy, please try again" 11)))
  /\ ((11 <= 10)%nat ->
        exists call priority, generate_handler 11 req = QueueAdd call priority)
  /\ (forall req' call priority,
        (10 < 11)%nat -> generate_handler 11 req' <> QueueAdd call priority).
Proof.
  apply (backlog_gate 11
           (mkRequest (Some "kiosk-2") (Some "tcs50-vondelpark") (Some "female")
              (Some "low") (Some (mkFile "selfie-bytes" (Some "image/jpeg"))))).
  split; [reflexivity|]. split; [reflexivity|]. eexists; reflexivity.
Defined.

(** ** The orchestrator *)

Lemma pg_catch_recorded env fr e srv :
  (pg_catch env fr e srv).1 = Finished fr (Thrown e)
  /\ failure_recorded env fr e srv (pg_catch env fr e srv).2.
Proof.
  split; [done|]. unfold failure_recorded, pg_catch. cbn [snd activeSessions kioskStats].
  split; [|split; [|split]].
  - eexists. rewrite JsMap_get_set_eq. split; [done|]. by cbn.
  - intros sid Hne. by rewrite JsMap_get_set_ne.
  - destruct (kioskStats srv !! c_kioskId (fr_call fr)) as [st|] eqn:Hst.
    + exists (bump_failed st). rewrite lookup_alter_eq, Hst. by cbn.
    + apply map_eq. intros k. rewrite lookup_alter.
      case_decide; [subst; by rewrite Hst | done].
  - intros k Hne. by rewrite lookup_alter_ne.
Qed.

Lemma job_turn_failure env k srv e :
  turn_failure env k srv = Some e ->
  job_turn env k srv = Some (pg_catch env (turn_frame env k) e (turn_entry env k srv)).
Proof.
  destruct k as [sid c|fr aw ev]; simpl.
  - unfold processGeneration_invoke, pg_resolve. cbn [fr_call].
    destruct (resolve_background _ _); [|done]. by intros [= <-].
  - destruct aw, ev as [[]| |[]| |[]]; simpl; try done; try by intros [= <-].
    destruct (first_image v); [done|]. by intros [= <-].
Qed.

(** C5: a job that fails in steps 1 to 4 (an unknown background
    included) ends its turn in the [catch] block: its session is [failed]
    with the error's message and an end time, the failed counter of its
    kiosk goes up by exactly one when the kiosk is in the allow-list (and
    the statistics are untouched otherwise), and the same error is thrown
    on to the caller. *)
Theorem failure_is_recorded_and_rethrown env k srv e :
  turn_failure env k srv = Some e ->
  exists srv',
    job_turn env k srv = Some (Finished (turn_frame env k) (Thrown e), srv')
    /\ failure_recorded env (turn_frame env k) e (turn_entry env k srv) srv'.
Proof.
  intros Hfail. rewrite (job_turn_failure env k srv e Hfail).
  destruct (pg_catch_recorded env (turn_frame env k) e (turn_entry env k srv)) as [H1 H2].
  exists (pg_catch env (turn_frame env k) e (turn_entry env k srv)).2.
  split; [reflexivity|done].
Qed.

Lemma failure_is_recorded_and_rethrown_witness :
  let env := mkTurn 1000 0 in
  let k := TInvoke "0b9c2f1e-aaaa"
             (mkCall "selfie-bytes" (Some "image/jpeg") "no-such-background"
                "female" "medium" "kiosk-1") in
  exists srv',
    job_turn env k server_init
    = Some (Finished (turn_frame env k)
              (Thrown (Error "Invalid background selection")), srv')
    /\ failure_recorded env (turn_frame env k)
         (Error "Invalid background selection") (turn_entry env k server_init) srv'.
Proof.
  apply (failure_is_recorded_and_rethrown (mkTurn 1000 0)
           (TInvoke "0b9c2f1e-aaaa"
              (mkCall "selfie-bytes" (Some "image/jpeg") "no-such-background"
                 "female" "medium" "kiosk-1"))
           server_init (Error "Invalid background selection")).
  vm_compute. reflexivity.
Defined.

(** The scenario of the spec, run: an unknown background for kiosk-1 on
    a fresh server. *)
Example unknown_background_scenario :
  let r := processGeneration_invoke (mkTurn 1000 0) "0b9c2f1e-aaaa"
             (mkCall "selfie-bytes" (Some "image/jpeg") "no-such-background"
                "female" "medium" "kiosk-1") server_init in
  (s_status <$> JsMap.get "0b9c2f1e-aaaa" (activeSessions r.2)) = Some failed
  /\ kioskStats r.2 !! "kiosk-1" = Some (mkStat 1 0 1 (Some 1000)).
Proof. vm_compute. split; reflexivity. Qed.

(** A background id that only names a member of [Object.prototype]
    passes the test of line 508 and fails at [path.join]; the job is recorded
    as failed all the same. *)
Example inherited_background_scenario :
  let r := processGeneration_invoke (mkTurn 1000 0) "0b9c2f1e-aaaa"
             (mkCall "selfie-bytes" (Some "image/jpeg") "toString"
                "female" "medium" "kiosk-1") server_init in
  r.1 = Finished (mkFrame (mkCall "selfie-bytes" (Some "image/jpeg") "toString"
                             "female" "medium" "kiosk-1") "0b9c2f1e-aaaa" 1000)
          (Thrown path_type_error)
  /\ (s_error <$> JsMap.get "0b9c2f1e-aaaa" (activeSessions r.2))
     = Some (Some (message path_type_error))
  /\ kioskStats r.2 !! "kiosk-1" = Some (mkStat 1 0 1 (Some 1000)).
Proof. vm_compute. repeat split. Qed.

(** The kiosk id [__proto__] makes line 494 define
    [Object.prototype.lastActive]; from then on [lastActive] is an inherited
    property of the catalogue too.  No counter moves. *)
Example proto_kiosk_scenario :
  let r := processGeneration_invoke (mkTurn 1000 0) "0b9c2f1e-aaaa"
             (mkCall "selfie-bytes" (Some "image/jpeg") "tcs50-vondelpark"
                "female" "medium" "__proto__") server_init in
  prototype_lastActive r.2 = Some 1000
  /\ kioskStats r.2 = kioskStats server_init
  /\ resolve_background (prototype_lastActive r.2) "lastActive" = inl path_type_error
  /\ resolve_background (prototype_lastActive server_init) "lastActive"
     = inl (Error "Invalid background selection").
Proof. vm_compute. repeat split. Qed.

Lemma job_turn_unknown_kiosk env k srv r :
  kioskStats srv !! c_kioskId (fr_call (turn_frame env k)) = None ->
  job_turn env k srv = Some r -> kioskStats r.2 = kioskStats srv.
Proof.
  intros Hnone.
  assert (Halter : forall f, alter f (c_kioskId (fr_call (turn_frame env k))) (kioskStats srv)
                             = kioskStats srv).
  { intros f. apply map_eq. intros i. rewrite lookup_alter.
    case_decide; [subst; by rewrite Hnone | done]. }
  destruct k as [sid c|fr aw ev]; simpl in *.
  - intros [= <-]. unfold processGeneration_invoke, pg_resolve, pg_catch, pg_open.
    cbn [fr_call kioskStats].
    destruct (resolve_background _ _); cbn [snd kioskStats];
      by rewrite !Halter.
  - unfold processGeneration_resume, pg_catch, pg_complete.
    destruct aw, ev as [[]| |[]| |[]]; try done;
      try (intros [= <-]; cbn [snd kioskStats]; by rewrite ?Halter).
    destruct (first_image v); intros [= <-]; cbn [snd kioskStats]; by rewrite ?Halter.
Qed.

Lemma last_slice_last_snoc {A} (n : nat) (l : list A) (x : A) :
  (0 < n)%nat -> last (slice_last n (l ++ [x])) = Some x.
Proof.
  intros Hn. unfold slice_last. rewrite length_app. simpl.
  rewrite drop_app_le by lia. apply last_snoc.
Qed.

(** C10: a request that passes the field check and the backlog gate is
    handed to the queue with its kiosk id, whatever that id is (the default
    [unknown] included).  When its task runs, the first thing it does is to
    register a session under the fresh id with status [processing]; this
    happens before the background id is looked up, so the session exists
    even when that id is unknown.  The session sits last in the registry and
    in the monitor's recent sessions, and for a kiosk outside the allow-list
    no turn of the job changes the kiosk statistics. *)
Theorem session_opened_whatever_the_kiosk queueSize req env sid srv :
  has_required_fields req ->
  (queueSize <= 10)%nat ->
  JsMap.get sid (activeSessions srv) = None ->
  exists call priority,
    generate_handler queueSize req = QueueAdd call priority
    /\ c_kioskId call = kioskId_of req
    /\ let opened := pg_open env sid call srv in
       let s := session_opened call (now env) in
       s_status s = processing
       /\ s_kioskId s = Some (kioskId_of req)
       /\ activeSessions opened = activeSessions srv ++ [(sid, s)]
       /\ JsMap.get sid (activeSessions opened) = Some s
       /\ processGeneration_invoke env sid call srv
          = pg_resolve env (mkFrame call sid (now env)) opened
       /\ is_Some (JsMap.get sid
                     (activeSessions (processGeneration_invoke env sid call srv).2))
       /\ (forall qs qp,
             mon_totalSessions (monitor qs qp opened)
             = S (JsMap.size (activeSessions srv))
             /\ last (mon_recentSessions (monitor qs qp opened))
                = Some (mkRecent (str_slice0 8 sid) s None))
       /\ (kioskStats srv !! kioskId_of req = None ->
           kioskStats opened = kioskStats srv
           /\ forall env' k srv1 r,
                fr_call (turn_frame env' k) = call ->
                kioskStats srv1 = kioskStats srv ->
                job_turn env' k srv1 = Some r -> kioskStats r.2 = kioskStats srv).
Proof.
  intros Hreq Hq Hfresh.
  destruct (generate_handler_fields queueSize req Hreq) as (b & g & f & _ & _ & _ & ->).
  apply Nat.ltb_ge in Hq. rewrite Hq.
  eexists _, _. split; [reflexivity|]. split; [reflexivity|].
  cbn zeta. set (call := mkCall _ _ _ _ _ _).
  assert (Hset : activeSessions (pg_open env sid call srv)
                 = activeSessions srv ++ [(sid, session_opened call (now env))]).
  { unfold pg_open. cbn [activeSessions]. by apply JsMap_set_fresh. }
  repeat split.
  - exact Hset.
  - unfold pg_open. cbn [activeSessions]. apply JsMap_get_set_eq.
  - unfold processGeneration_invoke, pg_resolve, pg_catch. cbn [fr_call fr_sessionId].
    destruct (resolve_background _ _); cbn [snd activeSessions].
    + rewrite JsMap_get_set_eq. eauto.
    + unfold pg_open. cbn [activeSessions]. rewrite JsMap_get_set_eq. eauto.
  - unfold monitor, JsMap.size. cbn [mon_totalSessions]. rewrite Hset, length_app.
    simpl. lia.
  - unfold monitor, JsMap.entries. cbn [mon_recentSessions]. rewrite Hset.
    rewrite fmap_last, last_slice_last_snoc by lia. reflexivity.
  - unfold pg_open. cbn [kioskStats]. apply map_eq. intros i.
    rewrite !lookup_alter. case_decide; [|done]. subst i.
    change (c_kioskId call) with (kioskId_of req).
    rewrite decide_True by done. by rewrite H.
  - intros env' k srv1 r Hk Hsrv1 Hturn. rewrite <- Hsrv1.
    apply (job_turn_unknown_kiosk env' k srv1 r); [|done].
    rewrite Hk, Hsrv1. exact H.
Qed.

Lemma session_opened_whatever_the_kiosk_witness :
  let req := mkRequest None (Some "no-such-background") (Some "female") None
               (Some (mkFile "selfie-bytes" (Some "image/jpeg"))) in
  has_required_fields req
  /\ JsMap.get "0b9c2f1e-aaaa" (activeSessions server_init) = None
  /\ exists call priority,
       generate_handler 0 req = QueueAdd call priority
       /\ c_kioskId call = "unknown"
       /\ kioskStats (pg_open (mkTurn 1000 0) "0b9c2f1e-aaaa" call server_init)
          = kioskStats server_init.
Proof.
  intros req.
  assert (Hreq : has_required_fields req).
  { split; [reflexivity|]. split; [reflexivity|]. eexists; reflexivity. }
  assert (Hq : (0 <= 10)%nat) by (repeat constructor).
  assert (Hfresh : JsMap.get "0b9c2f1e-aaaa" (activeSessions server_init) = None)
    by reflexivity.
  split; [exact Hreq|]. split; [exact Hfresh|].
  destruct (session_opened_whatever_the_kiosk 0 req (mkTurn 1000 0)
              "0b9c2f1e-aaaa" server_init Hreq Hq Hfresh)
    as (call & priority & Hadd & Hkiosk & _ & _ & _ & _ & _ & _ & _ & Hstats).
  exists call, priority. split; [exact Hadd|]. split; [exact Hkiosk|].
  apply Hstats. reflexivity.
Defined.

(** ** Calls in flight *)

Section InFlight.
Implicit Types (jobs : gmap string (Frame * Await)) (k sid : string).

Lemma in_flight_insert_fresh k sid fr aw jobs :
  jobs !! sid = None ->
  in_flight k (<[sid := (fr, aw)]> jobs)
  = (in_flight k jobs + if decide (c_kioskId (fr_call fr) = k) then 1 else 0)%nat.
Proof.
  intros Hnone. unfold in_flight. case_decide as Hk.
  - rewrite map_filter_insert_True by done.
    rewrite map_size_insert_None; [lia|].
    apply map_lookup_filter_None. by left.
  - rewrite map_filter_insert_False by done.
    rewrite delete_id by done. lia.
Qed.

Lemma in_flight_insert_same k sid fr aw aw' jobs :
  jobs !! sid = Some (fr, aw) ->
  in_flight k (<[sid := (fr, aw')]> jobs) = in_flight k jobs.
Proof.
  intros Hsome. unfold in_flight.
  destruct (decide (c_kioskId (fr_call fr) = k)) as [Hk|Hk].
  - rewrite map_filter_insert_True by done.
    rewrite map_size_insert_Some; [done|].
    exists (fr, aw). by apply map_lookup_filter_Some.
  - rewrite map_filter_insert_False by done.
    rewrite map_filter_delete. rewrite delete_id; [done|].
    apply map_lookup_filter_None. right. intros x Hx.
    rewrite Hsome in Hx. injection Hx as <-. done.
Qed.

Lemma in_flight_delete k sid fr aw jobs :
  jobs !! sid = Some (fr, aw) ->
  (in_flight k (delete sid jobs)
   + if decide (c_kioskId (fr_call fr) = k) then 1 else 0)%nat
  = in_flight k jobs.
Proof.
  intros Hsome. unfold in_flight. rewrite map_filter_delete.
  case_decide as Hk.
  - assert (Hin : filter (fun kv : string * (Frame * Await) =>
                            c_kioskId (fr_call kv.2.1) = k) jobs !! sid = Some (fr, aw))
      by by apply map_lookup_filter_Some.
    rewrite map_size_delete, Hin. simpl.
    assert (size (filter (fun kv : string * (Frame * Await) =>
                            c_kioskId (fr_call kv.2.1) = k) jobs) <> 0)%nat.
    { intros H0. apply map_size_empty_inv in H0. rewrite H0 in Hin. done. }
    lia.
  - rewrite delete_id; [lia|].
    apply map_lookup_filter_None. right. intros x Hx.
    rewrite Hsome in Hx. injection Hx as <-. done.
Qed.

End InFlight.

(** ** Turns of a job *)

Lemma resume_cases env ev fr aw srv r :
  processGeneration_resume env ev fr aw srv = Some r ->
  continuation_result env fr srv r.
Proof.
  unfold processGeneration_resume, continuation_result.
  destruct aw, ev as [[parts|]| |[parts|]| |[]]; try done;
    try destruct (first_image parts); intros [= <-]; eauto.
Qed.

Lemma resolve_cases env fr srv :
  continuation_result env fr srv (pg_resolve env fr srv).
Proof.
  unfold pg_resolve, continuation_result.
  destruct (resolve_background _ _); eauto.
Qed.

Lemma reap_sessions_get now sid (sessions : list (string * Session)) :
  JsMap.get sid (reap_sessions now sessions).1 = JsMap.get sid sessions
  \/ JsMap.get sid (reap_sessions now sessions).1 = None.
Proof.
  unfold reap_sessions, JsMap.entries.
  assert (Hgen : forall (l acc : list (string * Session)) n,
             let r := fold_left
                  (fun (acc : list (string * Session) * nat) (e : string * Session) =>
                     if session_is_old (now - 60 * 60 * 1000) e.2
                     then (JsMap.delete e.1 acc.1, S acc.2) else acc)
                  l (acc, n) in
             JsMap.get sid r.1 = JsMap.get sid acc \/ JsMap.get sid r.1 = None).
  { induction l as [|[id s] l IH]; intros acc n; cbn [fold_left]; [by left|].
    cbn [fst snd]. destruct (session_is_old _ s); [|apply IH].
    destruct (IH (JsMap.delete id acc) (S n)) as [H|H]; [|by right].
    cbn zeta. rewrite H, JsMap_get_delete. case_decide; [by right|by left]. }
  apply Hgen.
Qed.

Lemma reap_sessions_kept_are_young now sid s (sessions : list (string * Session)) :
  JsMap.get sid sessions = Some s ->
  session_is_old (now - 60 * 60 * 1000) s = true ->
  JsMap.get sid (reap_sessions now sessions).1 = None.
Proof.
  unfold reap_sessions, JsMap.entries. intros Hget Hold.
  assert (Hgen : forall (l acc : list (string * Session)) n,
             (JsMap.get sid l = Some s \/ JsMap.get sid acc = None) ->
             JsMap.get sid
               (fold_left
                  (fun (acc : list (string * Session) * nat) (e : string * Session) =>
                     if session_is_old (now - 60 * 60 * 1000) e.2
                     then (JsMap.delete e.1 acc.1, S acc.2) else acc)
                  l (acc, n)).1 = None).
  { induction l as [|[id s0] l IH]; intros acc n Hcase; cbn [fold_left].
    - destruct Hcase as [Hc|Hc]; [done|exact Hc].
    - cbn [fst snd]. destruct Hcase as [Hc|Hc].
      + simpl in Hc. destruct (decide (id = sid)) as [->|Hne].
        * injection Hc as ->. rewrite Hold. apply IH. right.
          rewrite JsMap_get_delete. by rewrite decide_True.
        * destruct (session_is_old _ s0); apply IH; by left.
      + destruct (session_is_old _ s0); apply IH; right; [|done].
        rewrite JsMap_get_delete. by case_decide. }
  apply Hgen. by left.
Qed.

(** ** The invariant of the event loop *)

(* An id is spent: it is the one just issued, or was issued before. *)
Ltac spent_id :=
  apply elem_of_union;
  first [ left; apply elem_of_singleton; congruence | right; assumption ].

Lemma kioskStats_init_lookup k st : kioskStats_init !! k = Some st -> st = stat0.
Proof.
  unfold kioskStats_init. intros H.
  repeat (apply lookup_insert_Some in H as [[_ <-]|[_ H]]; [done|]).
  by rewrite lookup_empty in H.
Qed.

Lemma inv_init : sys_inv system_init.
Proof.
  split; unfold sessions_of, stats_of; simpl.
  - intros sid fr aw H. by rewrite lookup_empty in H.
  - intros sid [x H]. by rewrite lookup_empty in H.
  - intros sid [x H]. done.
  - intros sid fr aw s H. by rewrite lookup_empty in H.
  - intros k st H. apply kioskStats_init_lookup in H as ->.
    unfold in_flight. rewrite map_filter_empty, map_size_empty. done.
  - done.
Qed.

Lemma inv_open env sid c sys :
  sys_inv sys -> sid ∉ sys_issued sys -> sys_inv (sys_open env sid c sys).
Proof.
  intros [Hfr Hji Hsi Hsp Hst Hal] Hfresh.
  assert (Hnojob : sys_jobs sys !! sid = None).
  { destruct (sys_jobs sys !! sid) eqn:E; [|done]. exfalso. apply Hfresh, Hji. by rewrite E. }
  split; unfold sessions_of, stats_of, sys_open in *; cbn [sys_server sys_jobs sys_issued
    pg_open activeSessions kioskStats].
  - intros sid' fr aw H. apply lookup_insert_Some in H as [[<- [= <- <-]]|[_ H]]; [done|eauto].
  - intros sid' H. rewrite lookup_insert in H. case_decide; [spent_id|].
    apply Hji in H. spent_id.
  - intros sid' H. destruct (decide (sid = sid')) as [<-|Hne]; [spent_id|].
    rewrite JsMap_get_set_ne in H by done. apply Hsi in H. spent_id.
  - intros sid' fr aw s H Hs. destruct (decide (sid = sid')) as [<-|Hne].
    + rewrite JsMap_get_set_eq in Hs. by injection Hs as <-.
    + rewrite lookup_insert_ne in H by done. rewrite JsMap_get_set_ne in Hs by done. eauto.
  - intros k st H. rewrite in_flight_insert_fresh by done. cbn [fr_call].
    destruct (decide (c_kioskId c = k)) as [Hk|Hk].
    + subst k. rewrite !lookup_alter_eq in H.
      destruct (kioskStats (sys_server sys) !! c_kioskId c) as [st0|] eqn:E; [|done].
      injection H as <-. cbn. specialize (Hst _ _ E). lia.
    + rewrite !lookup_alter_ne in H by done. specialize (Hst _ _ H). lia.
  - by rewrite !dom_alter_L.
Qed.

Lemma inv_finish sid fr aw s' (f : KioskStat -> KioskStat) sys :
  sys_inv sys ->
  sys_jobs sys !! sid = Some (fr, aw) ->
  s_status s' <> processing ->
  (forall st, total (f st) = total st
              /\ (completed_count (f st) + failed_count (f st)
                  = S (completed_count st + failed_count st))%nat) ->
  sys_inv {| sys_server :=
               {| activeSessions := JsMap.set sid s' (sessions_of sys);
                  kioskStats := alter f (c_kioskId (fr_call fr)) (stats_of sys);
                  prototype_lastActive := prototype_lastActive (sys_server sys) |};
             sys_jobs := delete sid (sys_jobs sys);
             sys_issued := sys_issued sys |}.
Proof.
  intros [Hfr Hji Hsi Hsp Hst Hal] Hjob Hterm Hf.
  split; unfold sessions_of, stats_of in *; cbn [sys_server sys_jobs sys_issued
    activeSessions kioskStats].
  - intros sid' fr' aw' H. apply lookup_delete_Some in H as [_ H]. eauto.
  - intros sid' [x H]. apply lookup_delete_Some in H as [_ H]. apply Hji. eauto.
  - intros sid' H. destruct (decide (sid = sid')) as [<-|Hne]; [apply Hji; eauto|].
    rewrite JsMap_get_set_ne in H by done. by apply Hsi.
  - intros sid' fr' aw' s H Hs. apply lookup_delete_Some in H as [Hne H].
    rewrite JsMap_get_set_ne in Hs by done. eauto.
  - intros k st H. pose proof (in_flight_delete k sid fr aw (sys_jobs sys) Hjob) as Hdel.
    destruct (decide (c_kioskId (fr_call fr) = k)) as [Hk|Hk].
    + subst k. rewrite lookup_alter_eq in H.
      destruct (kioskStats (sys_server sys) !! c_kioskId (fr_call fr)) as [st0|] eqn:E;
        [|done].
      injection H as <-. specialize (Hst _ _ E). destruct (Hf st0) as [Ht Hc]. lia.
    + rewrite lookup_alter_ne in H by done. specialize (Hst _ _ H). lia.
  - by rewrite dom_alter_L.
Qed.

Lemma inv_continue env sid fr aw r sys :
  sys_inv sys ->
  sys_jobs sys !! sid = Some (fr, aw) ->
  continuation_result env fr (sys_server sys) r ->
  sys_inv (sys_settle sid r sys).
Proof.
  intros Hinv Hjob Hr. pose proof (inv_frame sys Hinv sid fr aw Hjob) as Hsid.
  destruct Hr as [[aw' ->]|[[fn ->]|[e ->]]]; unfold sys_settle; cbn [fst snd].
  - destruct Hinv as [Hfr Hji Hsi Hsp Hst Hal].
    split; unfold sessions_of, stats_of in *; cbn [sys_server sys_jobs sys_issued].
    + intros sid' fr' aw0 H.
      apply lookup_insert_Some in H as [[<- [= <- <-]]|[_ H]]; [done|eauto].
    + intros sid' H. rewrite lookup_insert in H.
      case_decide as Hk; [subst sid'; apply Hji; eauto | by apply Hji].
    + exact Hsi.
    + intros sid' fr' aw0 s H Hs. destruct (decide (sid = sid')) as [<-|Hne]; [eauto|].
      rewrite lookup_insert_ne in H by done. eauto.
    + intros k st H. rewrite in_flight_insert_same with (aw := aw) by done. eauto.
    + done.
  - unfold pg_complete. cbn [fst snd]. rewrite Hsid.
    apply (inv_finish sid fr aw); [done|done|done|]. intros st. cbn. lia.
  - unfold pg_catch. cbn [fst snd]. rewrite Hsid.
    apply (inv_finish sid fr aw); [done|done|done|]. intros st. cbn. lia.
Qed.

Lemma sys_settle_open env sid c r sys :
  sys_settle sid r (sys_open env sid c sys)
  = sys_settle sid r
      {| sys_server := sys_server sys; sys_jobs := sys_jobs sys;
         sys_issued := {[sid]} ∪ sys_issued sys |}.
Proof.
  unfold sys_settle, sys_open. cbn [sys_jobs sys_issued].
  destruct (r.1); f_equal.
  - apply insert_insert_eq.
  - apply delete_insert_eq.
Qed.

Lemma sys_step_invoke env sid c sys sys' :
  sys_step (ActInvoke env sid c) sys = Some sys' ->
  (sid ∉ sys_issued sys)
  /\ sys' = sys_settle sid
              (pg_resolve env (mkFrame c sid (now env))
                 (sys_server (sys_open env sid c sys)))
              (sys_open env sid c sys).
Proof.
  cbn [sys_step]. case_decide as Hin; [done|]. intros [= <-]. split; [done|].
  by rewrite sys_settle_open.
Qed.

Lemma sys_step_resume env sid ev sys sys' :
  sys_step (ActResume env sid ev) sys = Some sys' ->
  exists fr aw r,
    sys_jobs sys !! sid = Some (fr, aw)
    /\ continuation_result env fr (sys_server sys) r
    /\ sys' = sys_settle sid r sys.
Proof.
  cbn [sys_step]. destruct (sys_jobs sys !! sid) as [[fr aw]|]; [|done].
  destruct (processGeneration_resume env ev fr aw (sys_server sys)) as [r|] eqn:E; [|done].
  intros [= <-]. exists fr, aw, r. split; [done|]. split; [|done].
  by eapply resume_cases.
Qed.

Lemma sys_open_job env sid c sys :
  sys_jobs (sys_open env sid c sys) !! sid = Some (mkFrame c sid (now env), AwGenerate).
Proof. unfold sys_open. cbn [sys_jobs]. apply lookup_insert_eq. Qed.

Lemma inv_step a sys sys' : sys_inv sys -> sys_step a sys = Some sys' -> sys_inv sys'.
Proof.
  intros Hinv Hstep. destruct a as [env sid c|env sid ev|now].
  - apply sys_step_invoke in Hstep as [Hfresh ->].
    eapply inv_continue; [by apply inv_open| apply sys_open_job | apply resolve_cases].
  - apply sys_step_resume in Hstep as (fr & aw & r & Hjob & Hr & ->).
    by eapply inv_continue.
  - cbn [sys_step] in Hstep. injection Hstep as <-.
    destruct Hinv as [Hfr Hji Hsi Hsp Hst Hal].
    split; unfold sessions_of, stats_of in *; cbn [sys_server sys_jobs sys_issued
      activeSessions kioskStats]; try done.
    + intros sid H.
      destruct (reap_sessions_get now sid (activeSessions (sys_server sys))) as [E|E];
        rewrite E in H; [by apply Hsi | by destruct H].
    + intros sid fr aw s Hjob Hs.
      destruct (reap_sessions_get now sid (activeSessions (sys_server sys))) as [E|E];
        rewrite E in Hs; [eauto | done].
Qed.

Lemma inv_run acts : forall sys sys',
  sys_inv sys -> sys_run acts sys = Some sys' -> sys_inv sys'.
Proof.
  induction acts as [|a acts IH]; intros sys sys' Hinv Hrun; cbn [sys_run] in Hrun.
  - by injection Hrun as <-.
  - destruct (sys_step a sys) as [sys1|] eqn:E; [|done].
    eapply IH; [|done]. by eapply inv_step.
Qed.

Lemma inv_reachable acts sys : sys_run acts system_init = Some sys -> sys_inv sys.
Proof. apply inv_run, inv_init. Qed.

(** C2: in every state the loop reaches, each kiosk of the allow-list
    has an entry whose total is the sum of its completed count, its failed
    count and the number of its calls still in flight; so
    completed + failed never exceeds total. *)
Theorem kiosk_counts_never_exceed_total acts sys k :
  sys_run acts system_init = Some sys ->
  k ∈ allow_list ->
  exists st,
    stats_of sys !! k = Some st
    /\ total st
       = (completed_count st + failed_count st + in_flight k (sys_jobs sys))%nat
    /\ (completed_count st + failed_count st <= total st)%nat.
Proof.
  intros Hrun Hk. pose proof (inv_reachable acts sys Hrun) as Hinv.
  assert (Hdom : k ∈ dom (stats_of sys)).
  { rewrite (inv_allow_list sys Hinv). unfold kioskStats_init.
    rewrite !dom_insert_L. unfold allow_list in Hk. set_solver. }
  apply elem_of_dom in Hdom as [st Hst]. exists st. split; [done|].
  pose proof (inv_stats sys Hinv k st Hst). split; [done|lia].
Qed.

(** ** Sessions whose job is over *)

Lemma terminal_settled sys sid s :
  sys_inv sys ->
  JsMap.get sid (sessions_of sys) = Some s -> terminal s -> settled_as sid s sys.
Proof.
  intros Hinv Hget Hterm. split; [|split; [|by left]].
  - apply (inv_sessions_issued sys Hinv). by rewrite Hget.
  - destruct (sys_jobs sys !! sid) as [[fr aw]|] eqn:E; [|done].
    exfalso. apply Hterm. by eapply (inv_suspended_processing sys Hinv).
Qed.

Lemma open_other_session env sid sid' c sys :
  sid <> sid' ->
  JsMap.get sid (sessions_of (sys_open env sid' c sys)) = JsMap.get sid (sessions_of sys).
Proof.
  intros Hne. unfold sessions_of, sys_open, pg_open. cbn [sys_server activeSessions].
  by apply JsMap_get_set_ne.
Qed.

(** A turn of the job of session [sid'] writes no other session. *)
Lemma continue_other_session env sid sid' fr aw r sys :
  sys_inv sys ->
  sys_jobs sys !! sid' = Some (fr, aw) ->
  continuation_result env fr (sys_server sys) r ->
  sid <> sid' ->
  JsMap.get sid (sessions_of (sys_settle sid' r sys)) = JsMap.get sid (sessions_of sys).
Proof.
  intros Hinv Hjob Hr Hne. pose proof (inv_frame sys Hinv sid' fr aw Hjob) as Hsid.
  destruct Hr as [[aw' ->]|[[fn ->]|[e ->]]];
    unfold sessions_of, sys_settle, pg_complete, pg_catch;
    cbn [fst snd sys_server activeSessions]; [done| |];
    rewrite Hsid; by apply JsMap_get_set_ne.
Qed.

(** What a turn of the job of session [sid] does to its own session: it
    leaves it alone, or writes a terminal one. *)
Lemma continue_own_session env sid fr aw r sys :
  sys_inv sys ->
  sys_jobs sys !! sid = Some (fr, aw) ->
  continuation_result env fr (sys_server sys) r ->
  JsMap.get sid (sessions_of (sys_settle sid r sys)) = JsMap.get sid (sessions_of sys)
  \/ exists s', JsMap.get sid (sessions_of (sys_settle sid r sys)) = Some s'
                /\ (s_status s' = completed \/ s_status s' = failed).
Proof.
  intros Hinv Hjob Hr. pose proof (inv_frame sys Hinv sid fr aw Hjob) as Hsid.
  destruct Hr as [[aw' ->]|[[fn ->]|[e ->]]];
    unfold sessions_of, sys_settle, pg_complete, pg_catch;
    cbn [fst snd sys_server activeSessions]; [by left| |]; right;
    rewrite Hsid, JsMap_get_set_eq; eexists; (split; [done|]).
  - by left.
  - by right.
Qed.

Lemma sys_settle_jobs_other sid sid' r sys :
  sid <> sid' -> sys_jobs (sys_settle sid' r sys) !! sid = sys_jobs sys !! sid.
Proof.
  intros Hne. unfold sys_settle. destruct (r.1); cbn [sys_jobs].
  - by apply lookup_insert_ne.
  - by apply lookup_delete_ne.
Qed.

Lemma sys_settle_issued sid r sys :
  sys_issued (sys_settle sid r sys) = sys_issued sys.
Proof. unfold sys_settle. by destruct (r.1). Qed.

Lemma settled_step a sys sys' sid s :
  sys_inv sys -> settled_as sid s sys -> sys_step a sys = Some sys' ->
  settled_as sid s sys'
  /\ (is_job_action a = true ->
      JsMap.get sid (sessions_of sys') = JsMap.get sid (sessions_of sys)).
Proof.
  intros Hinv (Hiss & Hnojob & Hget) Hstep. destruct a as [env sid' c|env sid' ev|now].
  - apply sys_step_invoke in Hstep as [Hfresh ->].
    assert (Hne : sid <> sid') by (intros ->; done).
    assert (Hsame : JsMap.get sid
                      (sessions_of (sys_settle sid'
                         (pg_resolve env (mkFrame c sid' (now env))
                            (sys_server (sys_open env sid' c sys)))
                         (sys_open env sid' c sys)))
                    = JsMap.get sid (sessions_of sys)).
    { rewrite (continue_other_session env sid sid' (mkFrame c sid' (now env)) AwGenerate);
        [by apply open_other_session | by apply inv_open | apply sys_open_job
        | apply resolve_cases | done]. }
    split; [|done]. split; [|split].
    + rewrite sys_settle_issued. unfold sys_open. cbn [sys_issued].
      apply elem_of_union. by right.
    + rewrite sys_settle_jobs_other by done. unfold sys_open. cbn [sys_jobs].
      by rewrite lookup_insert_ne.
    + by rewrite Hsame.
  - apply sys_step_resume in Hstep as (fr & aw & r & Hjob & Hr & ->).
    assert (Hne : sid <> sid') by (intros ->; congruence).
    pose proof (continue_other_session env sid sid' fr aw r sys Hinv Hjob Hr Hne) as Hsame.
    split; [|done]. split; [|split].
    + by rewrite sys_settle_issued.
    + by rewrite sys_settle_jobs_other.
    + by rewrite Hsame.
  - cbn [sys_step] in Hstep. injection Hstep as <-.
    split; [|done]. split; [done|]. split; [done|].
    unfold sessions_of in *. cbn [sys_server activeSessions].
    destruct (reap_sessions_get now sid (activeSessions (sys_server sys))) as [E|E];
      rewrite E; [done | by right].
Qed.

Lemma settled_run acts : forall sys sys' sid s,
  sys_inv sys -> settled_as sid s sys -> sys_run acts sys = Some sys' ->
  settled_as sid s sys'
  /\ (forallb is_job_action acts = true ->
      JsMap.get sid (sessions_of sys') = JsMap.get sid (sessions_of sys)).
Proof.
  induction acts as [|a acts IH]; intros sys sys' sid s Hinv Hset Hrun;
    cbn [sys_run] in Hrun.
  - injection Hrun as <-. done.
  - destruct (sys_step a sys) as [sys1|] eqn:E; [|done].
    destruct (settled_step a sys sys1 sid s Hinv Hset E) as [Hset1 Hsame1].
    destruct (IH sys1 sys' sid s (inv_step a sys sys1 Hinv E) Hset1 Hrun) as [Hset' Hsame'].
    split; [done|]. cbn [forallb]. intros [Ha Hacts]%andb_true_iff.
    rewrite Hsame' by done. by apply Hsame1.
Qed.

(** In one turn of the loop a registered session stays as it is, is
    removed, or is replaced by a terminal one. *)
Lemma session_step a sys sys' sid s s' :
  sys_inv sys ->
  JsMap.get sid (sessions_of sys) = Some s ->
  sys_step a sys = Some sys' ->
  JsMap.get sid (sessions_of sys') = Some s' ->
  s' = s \/ s_status s' = completed \/ s_status s' = failed.
Proof.
  intros Hinv Hget Hstep Hget'.
  assert (Hiss : sid ∈ sys_issued sys).
  { apply (inv_sessions_issued sys Hinv). by rewrite Hget. }
  destruct a as [env sid' c|env sid' ev|now].
  - apply sys_step_invoke in Hstep as [Hfresh ->].
    assert (Hne : sid <> sid') by (intros ->; done).
    rewrite (continue_other_session env sid sid' (mkFrame c sid' (now env)) AwGenerate)
      in Hget';
      [| by apply inv_open | apply sys_open_job | apply resolve_cases | done].
    rewrite open_other_session in Hget' by done. left. congruence.
  - apply sys_step_resume in Hstep as (fr & aw & r & Hjob & Hr & ->).
    destruct (decide (sid = sid')) as [<-|Hne].
    + destruct (continue_own_session env sid fr aw r sys Hinv Hjob Hr) as [E|(s1 & E & Hs1)].
      * left. congruence.
      * right. rewrite E in Hget'. by injection Hget' as <-.
    + rewrite (continue_other_session env sid sid' fr aw r sys) in Hget' by done.
      left. congruence.
  - cbn [sys_step] in Hstep. injection Hstep as <-.
    unfold sessions_of in *. cbn [sys_server activeSessions] in Hget'.
    destruct (reap_sessions_get now sid (activeSessions (sys_server sys))) as [E|E];
      rewrite E in Hget'; [left; congruence | done].
Qed.

Example sample_run_outcome :
  exists sys,
    sys_run sample_run system_init = Some sys
    /\ stats_of sys !! "kiosk-2" = Some (mkStat 2 1 1 (Some 1001))
    /\ (s_status <$> JsMap.get "3f2a9c1e-0001" (sessions_of sys)) = Some completed
    /\ (s_outputFile <$> JsMap.get "3f2a9c1e-0001" (sessions_of sys))
       = Some (Some "marathon_kiosk-2_9100_3f2a9c1e.png")
    /\ (s_status <$> JsMap.get "7b1d4e2a-0002" (sessions_of sys)) = Some failed
    /\ sys_jobs sys = ∅.
Proof.
  eexists. split; [vm_compute; reflexivity|].
  vm_compute. repeat split.
Qed.

Lemma kiosk_counts_never_exceed_total_witness :
  exists sys,
    sys_run sample_run system_init = Some sys
    /\ "kiosk-2" ∈ allow_list
    /\ exists st, stats_of sys !! "kiosk-2" = Some st
         /\ (completed_count st + failed_count st <= total st)%nat.
Proof.
  eexists. split; [vm_compute; reflexivity|].
  assert (Hk : "kiosk-2" ∈ allow_list).
  { unfold allow_list. apply list_elem_of_further, list_elem_of_here. }
  split; [exact Hk|].
  destruct (kiosk_counts_never_exceed_total sample_run _ "kiosk-2" eq_refl Hk)
    as (st & Hst & _ & Hle).
  exists st. split; [exact Hst | exact Hle].
Defined.

(** C1: in every state the loop reaches, a turn changes a registered
    session only by taking it from [processing] to [completed] or to
    [failed]; and once a session is terminal no later turn changes it: the
    turns of its own job and of every other job leave it exactly as it is,
    and all that can still happen to it is its removal by the session
    reaper, after which its id is never written again. *)
Theorem session_terminal_transition_is_final acts0 sys sid s :
  sys_run acts0 system_init = Some sys ->
  JsMap.get sid (sessions_of sys) = Some s ->
  (forall a sys' s',
      sys_step a sys = Some sys' ->
      JsMap.get sid (sessions_of sys') = Some s' ->
      s' = s
      \/ (s_status s = processing /\ (s_status s' = completed \/ s_status s' = failed)))
  /\ (terminal s ->
      forall acts sys',
        sys_run acts sys = Some sys' ->
        (JsMap.get sid (sessions_of sys') = Some s
         \/ JsMap.get sid (sessions_of sys') = None)
        /\ (forallb is_job_action acts = true ->
            JsMap.get sid (sessions_of sys') = Some s)).
Proof.
  intros Hrun Hget. pose proof (inv_reachable acts0 sys Hrun) as Hinv. split.
  - intros a sys' s' Hstep Hget'.
    destruct (decide (s_status s = processing)) as [Hp|Hterm].
    + destruct (session_step a sys sys' sid s s' Hinv Hget Hstep Hget') as [->|Hs'];
        [by left | right; done].
    + left. pose proof (terminal_settled sys sid s Hinv Hget Hterm) as Hset.
      destruct (settled_step a sys sys' sid s Hinv Hset Hstep) as [(_ & _ & [E|E]) _];
        congruence.
  - intros Hterm acts sys' Hrun'.
    pose proof (terminal_settled sys sid s Hinv Hget Hterm) as Hset.
    destruct (settled_run acts sys sys' sid s Hinv Hset Hrun') as [(_ & _ & Hfin) Hsame].
    split; [exact Hfin|]. intros Hjobs. rewrite Hsame by done. exact Hget.
Qed.

Lemma session_terminal_transition_is_final_witness :
  exists sys s,
    sys_run sample_run system_init = Some sys
    /\ JsMap.get "7b1d4e2a-0002" (sessions_of sys) = Some s
    /\ s_status s = failed
    /\ forall acts sys',
         sys_run acts sys = Some sys' ->
         JsMap.get "7b1d4e2a-0002" (sessions_of sys') = Some s
         \/ JsMap.get "7b1d4e2a-0002" (sessions_of sys') = None.
Proof.
  eexists _, _. split; [vm_compute; reflexivity|].
  split; [vm_compute; reflexivity|]. split; [reflexivity|].
  intros acts sys' Hrun.
  refine (proj1 (proj2 (session_terminal_transition_is_final sample_run _
                          "7b1d4e2a-0002" _ _ _) _ acts sys' Hrun)).
  - vm_compute. reflexivity.
  - vm_compute. reflexivity.
  - discriminate.
Defined.

(** ** The rate limiter *)

Section Limiter.
Variable o : RateLimit.Options.

Lemma window_filter_narrows (t t' : Z) (l : list Z) :
  t' <= t ->
  filter (fun s => t - RateLimit.windowMs o < s) (filter (fun s => t' - RateLimit.windowMs o < s) l)
  = filter (fun s => t - RateLimit.windowMs o < s) l.
Proof.
  intros Hle. induction l as [|s l IH]; [done|].
  rewrite (filter_cons (fun s => t' - RateLimit.windowMs o < s)).
  destruct (decide (t' - RateLimit.windowMs o < s)) as [H1|H1].
  - rewrite !filter_cons. destruct (decide (t - RateLimit.windowMs o < s)); by rewrite IH.
  - rewrite IH, filter_cons. rewrite decide_False; [done|lia].
Qed.

Lemma admitted_at_snoc key t k admitted :
  admitted_at key (admitted ++ [(t, k)])
  = admitted_at key admitted ++ (if decide (k = key) then [t] else []).
Proof.
  unfold admitted_at. rewrite filter_app, fmap_app. f_equal.
  rewrite filter_cons, filter_nil. cbn [snd]. by destruct (decide (k = key)).
Qed.

Lemma admitted_in_window_length t key admitted :
  RateLimit.admitted_in_window o t key admitted
  = length (filter (fun s => t - RateLimit.windowMs o < s) (admitted_at key admitted)).
Proof.
  unfold RateLimit.admitted_in_window, admitted_at.
  induction admitted as [|[s k] l IH]; [done|].
  rewrite (filter_cons (fun a : Z * string => a.2 = key)), filter_cons. cbn [fst snd].
  destruct (decide (k = key)) as [Hk|Hk].
  - rewrite fmap_cons, filter_cons. cbn [fst].
    destruct (decide (t - RateLimit.windowMs o < s)) as [Hs|Hs].
    + rewrite decide_True by done. cbn [length]. by rewrite IH.
    + rewrite decide_False by (intros [_ ?]; done). done.
  - rewrite decide_False by (intros [? _]; done). done.
Qed.

Lemma limiter_inv_mono T T' st admitted :
  T <= T' -> limiter_inv o T st admitted -> limiter_inv o T' st admitted.
Proof. intros Hle Hinv key t Ht. apply Hinv. lia. Qed.

Lemma limiter_inv_hit T t req st admitted :
  T <= t ->
  limiter_inv o T st admitted ->
  limiter_inv o t (RateLimit.hit o t req st).2
    (match (RateLimit.hit o t req st).1 with
     | RateLimit.Admit => admitted ++ [(t, RateLimit.keyGenerator o req)]
     | RateLimit.Refuse _ => admitted
     end).
Proof.
  intros HT Hinv key t' Ht'. unfold RateLimit.hit.
  set (k := RateLimit.keyGenerator o req).
  set (recent := filter (fun s => t - RateLimit.windowMs o < s) (default [] (st !! k))).
  assert (Hrecent : filter (fun s => t' - RateLimit.windowMs o < s) recent
                    = filter (fun s => t' - RateLimit.windowMs o < s) (admitted_at k admitted)).
  { unfold recent. rewrite window_filter_narrows by done. apply Hinv. lia. }
  destruct (decide (length recent < RateLimit.max o)%nat); cbn [fst snd].
  - rewrite admitted_at_snoc. destruct (decide (k = key)) as [<-|Hne].
    + rewrite lookup_insert_eq. cbn [default from_option id].
      by rewrite !filter_app, Hrecent.
    + rewrite lookup_insert_ne by done. rewrite app_nil_r. apply Hinv. lia.
  - destruct (decide (k = key)) as [<-|Hne].
    + rewrite lookup_insert_eq. cbn [default from_option id]. exact Hrecent.
    + rewrite lookup_insert_ne by done. apply Hinv. lia.
Qed.

Lemma limiter_inv_run reqs : forall T Tend st admitted st' admitted',
  limiter_inv o T st admitted ->
  StronglySorted Z.le reqs.*1 ->
  Forall (fun t => T <= t <= Tend) reqs.*1 ->
  T <= Tend ->
  RateLimit.run o reqs st admitted = (st', admitted') ->
  limiter_inv o Tend st' admitted'.
Proof.
  induction reqs as [|[t req] reqs IH]; intros T Tend st admitted st' admitted'
    Hinv Hsorted Hall HT Hrun; cbn [RateLimit.run] in Hrun.
  - injection Hrun as <- <-. by eapply limiter_inv_mono.
  - rewrite fmap_cons in Hsorted, Hall. cbn [fst] in Hsorted, Hall.
    apply StronglySorted_inv in Hsorted as [Hsorted Hhead].
    apply Forall_cons in Hall as [[HTt HtT] Hall].
    pose proof (limiter_inv_hit T t req st admitted HTt Hinv) as Hinv1.
    assert (Hall1 : Forall (fun t0 => t <= t0 <= Tend) reqs.*1).
    { apply Forall_forall. intros t0 Hin.
      rewrite Forall_forall in Hhead, Hall. specialize (Hhead _ Hin).
      specialize (Hall _ Hin). lia. }
    destruct (RateLimit.hit o t req st) as [[|r] st1]; cbn [fst snd] in Hinv1;
      by eapply IH.
Qed.

Lemma limiter_inv_empty T : limiter_inv o T ∅ [].
Proof. intros key t _. by rewrite lookup_empty. Qed.

Lemma limiter_hit_iff reqs t req st admitted :
  StronglySorted Z.le (reqs.*1 ++ [t]) ->
  RateLimit.run o reqs ∅ [] = (st, admitted) ->
  (RateLimit.hit o t req st).1 = RateLimit.Admit
  <-> (RateLimit.admitted_in_window o t (RateLimit.keyGenerator o req) admitted
       < RateLimit.max o)%nat.
Proof.
  intros Hsorted Hrun.
  assert (Hmax : Forall (fun t' => t' <= t) reqs.*1).
  { clear Hrun. induction (reqs.*1) as [|a l IH]; [done|].
    cbn [app] in Hsorted. apply StronglySorted_inv in Hsorted as [Hs Ha].
    constructor; [|by apply IH].
    rewrite Forall_forall in Ha. apply Ha. apply elem_of_app. right.
    apply list_elem_of_here. }
  assert (Hs : StronglySorted Z.le reqs.*1).
  { clear Hrun Hmax. induction (reqs.*1) as [|a l IH]; [constructor|].
    cbn [app] in Hsorted. apply StronglySorted_inv in Hsorted as [Hs Ha].
    constructor; [by apply IH|]. apply Forall_app in Ha as [Ha _]. done. }
  set (T0 := foldr Z.min t reqs.*1).
  assert (HT0 : T0 <= t /\ Forall (fun t' => T0 <= t') reqs.*1).
  { unfold T0. clear. induction (reqs.*1) as [|a l [IH1 IH2]]; cbn [foldr].
    - split; [lia|done].
    - split; [lia|]. constructor; [lia|]. eapply Forall_impl; [exact IH2|].
      cbn. intros. lia. }
  destruct HT0 as [HT0 Hlow].
  assert (Hinv : limiter_inv o t st admitted).
  { eapply (limiter_inv_run reqs T0 t ∅ []); [apply limiter_inv_empty|done| |done|done].
    apply Forall_forall. intros t' Hin. rewrite Forall_forall in Hmax, Hlow.
    split; [by apply Hlow | by apply Hmax]. }
  rewrite admitted_in_window_length. rewrite <- (Hinv _ t) by lia.
  unfold RateLimit.hit.
  destruct (decide (_ < _)%nat) as [Hlt|Hge]; cbn [fst]; split; done.
Qed.

End Limiter.

(** C7: for every key (the [X-Kiosk-Id] header value, or [unknown]),
    with requests arriving in chronological order, a request is admitted
    exactly when fewer than 5 requests of its key were admitted in the 60
    seconds that trail it.  So a request that finds 5 admitted ones in its
    window (the 6th within 60 seconds) is refused, and once every admitted
    request of the key is at least 60 seconds old the key is admitted again. *)
Theorem kiosk_limiter_window reqs t req st admitted :
  StronglySorted Z.le (reqs.*1 ++ [t]) ->
  RateLimit.run kioskLimiter reqs ∅ [] = (st, admitted) ->
  let verdict := (RateLimit.hit kioskLimiter t req st).1 in
  let in_window := RateLimit.admitted_in_window kioskLimiter t (kioskId_of req) admitted in
  (verdict = RateLimit.Admit <-> (in_window < 5)%nat)
  /\ ((5 <= in_window)%nat -> verdict = RateLimit.Refuse (RateLimit.refusal kioskLimiter))
  /\ (Forall (fun a : Z * string => a.2 = kioskId_of req -> a.1 + 60 * 1000 <= t) admitted ->
      verdict = RateLimit.Admit).
Proof.
  intros Hsorted Hrun verdict in_window.
  pose proof (limiter_hit_iff kioskLimiter reqs t req st admitted Hsorted Hrun) as Hiff.
  change (RateLimit.max kioskLimiter) with 5%nat in Hiff.
  change (RateLimit.keyGenerator kioskLimiter req) with (kioskId_of req) in Hiff.
  fold verdict in_window in Hiff. split; [exact Hiff|]. split.
  - intros Hfull. subst verdict. unfold RateLimit.hit in *.
    destruct (decide (_ < _)%nat) as [Hlt|Hge]; cbn [fst] in *; [|done].
    assert (in_window < 5)%nat by (by apply Hiff). lia.
  - intros Hold. apply Hiff. subst in_window.
    unfold RateLimit.admitted_in_window.
    replace (filter _ admitted) with (@nil (Z * string)); [cbn; lia|].
    symmetry. clear -Hold. induction Hold as [|[s k] l Hs _ IH]; [done|].
    rewrite filter_cons. rewrite decide_False; [exact IH|].
    cbn [fst snd] in *. intros [Hk Hw]. specialize (Hs Hk).
    change (RateLimit.windowMs kioskLimiter) with (60 * 1000) in Hw. lia.
Qed.

(** Five requests of kiosk 1, one second apart, then a sixth. *)
Lemma kiosk_limiter_window_witness :
  let req := mkRequest (Some "kiosk-1") (Some "tcs50-vondelpark") (Some "female")
               None None in
  let reqs := [(0, req); (1000, req); (2000, req); (3000, req); (4000, req)] in
  exists st admitted,
    RateLimit.run kioskLimiter reqs ∅ [] = (st, admitted)
    /\ (RateLimit.hit kioskLimiter 5000 req st).1
       = RateLimit.Refuse (RateLimit.refusal kioskLimiter).
Proof.
  intros req reqs. eexists _, _. split; [vm_compute; reflexivity|].
  refine (proj1 (proj2 (kiosk_limiter_window reqs 5000 req _ _ _ _)) _).
  - cbn. repeat constructor; discriminate.
  - vm_compute. reflexivity.
  - vm_compute. constructor.
Defined.

(** Seven requests of one kiosk, ten seconds apart: the sixth falls in
    the window of five admitted ones and is refused; the seventh comes when
    the first has left the window and is admitted. *)
Example limiter_sixth_refused_seventh_admitted :
  let req := mkRequest (Some "kiosk-1") None None None None in
  (RateLimit.run kioskLimiter
     [(0, req); (10000, req); (20000, req); (30000, req); (40000, req);
      (50000, req); (60000, req)] ∅ []).2
  = [(0, "kiosk-1"); (10000, "kiosk-1"); (20000, "kiosk-1"); (30000, "kiosk-1");
     (40000, "kiosk-1"); (60000, "kiosk-1")].
Proof. vm_compute. reflexivity. Qed.

(** ** The bounded job queue *)

Section Queue.
Variable o : PQueue.Options.
Hypothesis interval_pos : 0 < PQueue.interval o.

Lemma started_in_cons b task now log :
  PQueue.started_in o b ((task, now) :: log)
  = ((if decide (now / PQueue.interval o = b)%Z then 1 else 0)
     + PQueue.started_in o b log)%nat.
Proof.
  unfold PQueue.started_in. rewrite filter_cons. cbn [snd].
  by destruct (decide (now / PQueue.interval o = b)).
Qed.

Lemma started_in_older b log :
  Forall (fun s : nat * Z => s.2 / PQueue.interval o < b) log ->
  PQueue.started_in o b log = 0%nat.
Proof.
  unfold PQueue.started_in. induction 1 as [|s l Hs _ IH]; [done|].
  rewrite filter_cons. rewrite decide_False by lia. exact IH.
Qed.

Lemma queue_inv_init T : queue_inv o T PQueue.init.
Proof.
  unfold queue_inv, PQueue.init, PQueue.pending, PQueue.started_in. cbn.
  repeat split; lia.
Qed.

Lemma roll_inv T now q :
  T <= now -> queue_inv o T q ->
  queue_inv o now (PQueue.roll o now q)
  /\ PQueue.bucket (PQueue.roll o now q) = Some (now / PQueue.interval o)
  /\ PQueue.waiting (PQueue.roll o now q) = PQueue.waiting q.
Proof.
  intros HT (Hrun & Hst & Hall & Hb). unfold PQueue.roll.
  assert (Hdiv : T / PQueue.interval o <= now / PQueue.interval o)
    by (by apply Z.div_le_mono).
  destruct (decide (PQueue.bucket q = Some (now / PQueue.interval o))) as [E|E].
  - split; [|done]. unfold queue_inv. rewrite E in *.
    destruct Hb as (Hle & Hfa & Hcnt). repeat split; try done; lia.
  - split; [|done]. unfold queue_inv, PQueue.pending in *.
    cbn [PQueue.running PQueue.started PQueue.starts PQueue.bucket].
    split; [done|]. split; [lia|]. split; [done|].
    destruct (PQueue.bucket q) as [b0|].
    + destruct Hb as (Hle & Hfa & Hcnt).
      assert (b0 < now / PQueue.interval o) by (assert (b0 <> now / PQueue.interval o)
        by congruence; lia).
      split; [lia|]. split.
      * eapply Forall_impl; [exact Hfa|]. cbn. intros. lia.
      * apply started_in_older. eapply Forall_impl; [exact Hfa|]. cbn. intros. lia.
    + destruct Hb as [-> _]. split; [lia|]. split; [constructor|done].
Qed.

Lemma try_start_inv T now q q' :
  T <= now -> queue_inv o T q -> PQueue.try_start o now q = Some q' ->
  queue_inv o now q' /\ (length (PQueue.waiting q') < length (PQueue.waiting q))%nat.
Proof.
  intros HT Hinv. unfold PQueue.try_start.
  destruct (roll_inv T now q HT Hinv) as ((Hrun & Hst & Hall & Hb) & Hbucket & Hwait).
  rewrite <- Hwait. set (q1 := PQueue.roll o now q) in *.
  destruct (PQueue.waiting q1) as [|[p task] rest]; [done|].
  destruct (decide _) as [[Hc Hcap]|]; [|done]. intros [= <-].
  split; [|cbn; lia]. rewrite Hbucket in Hb. destruct Hb as (Hle & Hfa & Hcnt).
  unfold queue_inv, PQueue.pending in *.
  cbn [PQueue.running PQueue.started PQueue.starts PQueue.bucket length].
  rewrite Hbucket. split; [lia|]. split; [lia|]. split; [|split; [lia|split]].
  - intros b. rewrite started_in_cons. case_decide as Hbk; [|apply Hall].
    subst b. rewrite Hcnt. lia.
  - constructor; [cbn; lia | exact Hfa].
  - rewrite started_in_cons, decide_True by done. lia.
Qed.

Lemma pump_inv now fuel : forall T q,
  T <= now -> queue_inv o T q -> queue_inv o now (PQueue.pump o now fuel q).
Proof.
  induction fuel as [|n IH]; intros T q HT Hinv; cbn [PQueue.pump].
  - destruct Hinv as (Hrun & Hst & Hall & Hb). unfold queue_inv.
    repeat split; try done. destruct (PQueue.bucket q); [|done].
    destruct Hb as (Hle & ? & ?). repeat split; try done.
    pose proof (Z.div_le_mono T now (PQueue.interval o) interval_pos HT). lia.
  - destruct (PQueue.try_start o now q) as [q'|] eqn:E.
    + apply (IH now); [lia|]. by eapply try_start_inv.
    + apply (IH T q) in Hinv; [|done]. clear IH.
      destruct n; cbn [PQueue.pump] in Hinv; [exact Hinv|].
      by rewrite E in Hinv.
Qed.

Lemma step_inv T now e q :
  T <= now -> queue_inv o T q -> queue_inv o now (PQueue.step o now e q).
Proof.
  intros HT Hinv. unfold PQueue.step. apply (pump_inv now _ T); [done|].
  destruct Hinv as (Hrun & Hst & Hall & Hb).
  destruct e as [task p|task|]; unfold queue_inv, PQueue.pending in *;
    cbn [PQueue.running PQueue.started PQueue.starts PQueue.bucket]; try done.
  split; [|done]. pose proof (remove_length_le Nat.eq_dec (PQueue.running q) task). lia.
Qed.

Lemma run_inv evs : forall T q,
  StronglySorted Z.le evs.*1 ->
  Forall (fun t => T <= t) evs.*1 ->
  queue_inv o T q ->
  exists T', queue_inv o T' (PQueue.run o evs q).
Proof.
  induction evs as [|[now e] evs IH]; intros T q Hsorted Hlow Hinv; cbn [PQueue.run].
  - by exists T.
  - rewrite fmap_cons in Hsorted, Hlow. cbn [fst] in Hsorted, Hlow.
    apply StronglySorted_inv in Hsorted as [Hsorted Hhead].
    apply Forall_cons in Hlow as [HT _].
    apply (IH now); [done|done|]. by apply (step_inv T).
Qed.

End Queue.

Example sample_load_before_tick :
  let q := PQueue.run generationQueue (take 6 sample_load) PQueue.init in
  PQueue.running q = [4%nat] /\ PQueue.waiting q = [(0, 3%nat)]
  /\ PQueue.starts q = [(4%nat, 500); (2%nat, 0); (1%nat, 0)].
Proof. vm_compute. repeat split. Qed.

Example sample_load_after_tick :
  let q := PQueue.run generationQueue sample_load PQueue.init in
  PQueue.running q = [3%nat; 4%nat] /\ PQueue.waiting q = []
  /\ PQueue.starts q = [(3%nat, 1000); (4%nat, 500); (2%nat, 0); (1%nat, 0)].
Proof. vm_compute. repeat split. Qed.

(** C9: whatever is submitted, finished or ticked, in chronological
    order, the queue never has more than 2 tasks executing, and no
    one-second bucket sees more than 3 tasks begin. *)
Theorem queue_concurrency_and_pacing evs :
  StronglySorted Z.le evs.*1 ->
  let q := PQueue.run generationQueue evs PQueue.init in
  (PQueue.pending q <= 2)%nat
  /\ forall b, (PQueue.started_in generationQueue b (PQueue.starts q) <= 3)%nat.
Proof.
  intros Hsorted q.
  set (T0 := foldr Z.min 0 evs.*1).
  assert (Hlow : Forall (fun t => T0 <= t) evs.*1).
  { unfold T0. clear. induction (evs.*1) as [|a l IH]; cbn [foldr]; [done|].
    constructor; [lia|]. eapply Forall_impl; [exact IH|]. cbn. intros. lia. }
  destruct (run_inv generationQueue eq_refl evs T0 PQueue.init Hsorted Hlow
              (queue_inv_init generationQueue T0)) as (T' & Hrun & _ & Hall & _).
  split; [exact Hrun | exact Hall].
Qed.

Lemma queue_concurrency_and_pacing_witness :
  let q := PQueue.run generationQueue sample_load PQueue.init in
  (PQueue.pending q <= 2)%nat
  /\ forall b, (PQueue.started_in generationQueue b (PQueue.starts q) <= 3)%nat.
Proof.
  apply (queue_concurrency_and_pacing sample_load).
  cbn. repeat constructor; discriminate.
Defined.

(** ** The limiter's refusal *)



(** A key that is part of the configured sentence does occur in the
    refusal: the answer to a client that calls itself [kiosk] contains
    its id, by coincidence. *)
Example limiter_refusal_contains_a_substring_key :
  let req := mkRequest (Some "kiosk") (Some "tcs50-vondelpark") (Some "female")
               None None in
  kioskId_of req = "kiosk"
  /\ response_mentions (kioskId_of req) (RateLimit.refusal kioskLimiter) = true.
Proof. split; reflexivity. Qed.


(** * Further properties *)

(** ** CORS *)

(** X1: the origin check accepts a request exactly when it carries no
    origin (or an empty one) or its origin contains [railway.app] or
    [localhost] somewhere; the explicit list of allowed origins adds
    nothing, each of its members containing one of the two. *)
Theorem cors_origin_by_substring origin :
  cors_origin origin = None
  <-> truthy_str origin = false
      \/ exists o, origin = Some o
           /\ (str_includes "railway.app" o = true \/ str_includes "localhost" o = true).
Proof.
  unfold cors_origin. destruct (truthy_str origin) eqn:Ht; cbn [negb].
  - destruct origin as [o|]; [|done]. cbn [default from_option id].
    assert (Hlist : o ∈ allowedOrigins ->
              str_includes "railway.app" o = true \/ str_includes "localhost" o = true).
    { unfold allowedOrigins. intros Hin.
      repeat (apply elem_of_cons in Hin as [->|Hin]; [vm_compute; auto|]).
      by apply elem_of_nil in Hin. }
    destruct (decide (o ∈ allowedOrigins)) as [Hin|Hin].
    { rewrite bool_decide_eq_true_2 by done. cbn [orb]. split; [|done].
      intros _. right. exists o. split; [done|]. by apply Hlist. }
    rewrite bool_decide_eq_false_2 by done. cbn [orb].
    destruct (str_includes "railway.app" o) eqn:Hr; cbn [orb].
    { split; [|done]. intros _. right. exists o. split; [done|]. by left. }
    destruct (str_includes "localhost" o) eqn:Hl.
    { split; [|done]. intros _. right. exists o. split; [done|]. by right. }
    split; [done|]. intros [?|(o' & [= <-] & [?|?])]; congruence.
  - split; [by left|done].
Qed.

Example cors_origin_examples :
  cors_origin None = None
  /\ cors_origin (Some "https://marathon-photobooth.railway.app") = None
  /\ cors_origin (Some "https://localhost.example.org") = None
  /\ cors_origin (Some "https://example.org") = Some (Error "Not allowed by CORS").
Proof. vm_compute. repeat split. Qed.

(** ** The catalogue endpoint *)

Lemma prefix_amsterdam_not_future s :
  String.prefix "amsterdam750-" s = true -> String.prefix "future-" s = false.
Proof.
  destruct s as [|c s]; [done|]. cbn [String.prefix].
  destruct (Ascii.ascii_dec _ c) as [<-|]; [|done]. intros _.
  by destruct (Ascii.ascii_dec _ _).
Qed.

Lemma prefix_amsterdam_not_tcs s :
  String.prefix "amsterdam750-" s = true -> String.prefix "tcs50-" s = false.
Proof.
  destruct s as [|c s]; [done|]. cbn [String.prefix].
  destruct (Ascii.ascii_dec _ c) as [<-|]; [|done]. intros _.
  by destruct (Ascii.ascii_dec _ _).
Qed.

Lemma prefix_future_not_tcs s :
  String.prefix "future-" s = true -> String.prefix "tcs50-" s = false.
Proof.
  destruct s as [|c s]; [done|]. cbn [String.prefix].
  destruct (Ascii.ascii_dec _ c) as [<-|]; [|done]. intros _.
  by destruct (Ascii.ascii_dec _ _).
Qed.

Lemma api_backgrounds_fold entries : forall a f t,
  fold_left add_background entries (mkCategories a f t)
  = mkCategories (a ++ in_category "amsterdam750-" entries)
      (f ++ in_category "future-" entries) (t ++ in_category "tcs50-" entries).
Proof.
  unfold in_category.
  induction entries as [|e entries IH]; intros a f t; cbn [fold_left].
  - by rewrite !filter_nil, !app_nil_r.
  - rewrite !filter_cons. unfold add_background.
    cbn [amsterdam750 futureofrunning tcs50].
    pose proof (prefix_amsterdam_not_future (cat_id e)) as H1.
    pose proof (prefix_amsterdam_not_tcs (cat_id e)) as H2.
    pose proof (prefix_future_not_tcs (cat_id e)) as H3.
    destruct (String.prefix "amsterdam750-" (cat_id e)),
             (String.prefix "future-" (cat_id e)),
             (String.prefix "tcs50-" (cat_id e));
      try (specialize (H1 eq_refl)); try (specialize (H2 eq_refl));
      try (specialize (H3 eq_refl)); try discriminate;
      rewrite IH; cbn [decide decide_rel]; simpl;
      by rewrite <- ?app_assoc.
Qed.

(** X2: the catalogue endpoint puts under each category exactly the
    backgrounds whose id starts with the category's prefix, in catalogue
    order and with the thumbnail path [/backgrounds/<file>]; since no id
    starts with two of the prefixes, no background is listed twice, and a
    background whose id has none of them is not listed at all. *)
Theorem api_backgrounds_by_prefix entries :
  api_backgrounds entries
  = mkCategories (in_category "amsterdam750-" entries)
      (in_category "future-" entries) (in_category "tcs50-" entries)
  /\ (forall id : string,
        (if String.prefix "amsterdam750-" id then 1 else 0)
        + (if String.prefix "future-" id then 1 else 0)
        + (if String.prefix "tcs50-" id then 1 else 0) <= 1).
Proof.
  split.
  - unfold api_backgrounds. by rewrite api_backgrounds_fold.
  - intros id.
    pose proof (prefix_amsterdam_not_future id) as H1.
    pose proof (prefix_amsterdam_not_tcs id) as H2.
    pose proof (prefix_future_not_tcs id) as H3.
    destruct (String.prefix "amsterdam750-" id), (String.prefix "future-" id),
             (String.prefix "tcs50-" id);
      try (specialize (H1 eq_refl)); try (specialize (H2 eq_refl));
      try (specialize (H3 eq_refl)); try discriminate; lia.
Qed.

(** The list of entries is the catalogue, and the endpoint shows all nine
    of its backgrounds, three per category. *)
Example catalogue_fully_listed :
  BACKGROUNDS = list_to_map ((fun e => (cat_id e, cat_info e)) <$> BACKGROUNDS_entries)
  /\ length (amsterdam750 (api_backgrounds BACKGROUNDS_entries)) = 3%nat
  /\ length (futureofrunning (api_backgrounds BACKGROUNDS_entries)) = 3%nat
  /\ length (tcs50 (api_backgrounds BACKGROUNDS_entries)) = 3%nat
  /\ (bd_thumbnail <$> head (tcs50 (api_backgrounds BACKGROUNDS_entries)))
     = Some "/backgrounds/TCS50-FirstMarathon.png".
Proof. split; [reflexivity|]. vm_compute. repeat split. Qed.

(** ** The kiosk status endpoint *)

Lemma continuation_prototype env fr srv r :
  continuation_result env fr srv r ->
  prototype_lastActive r.2 = prototype_lastActive srv.
Proof. by intros [[aw ->]|[[f ->]|[e ->]]]. Qed.

Lemma server_of_settle sid r sys : sys_server (sys_settle sid r sys) = r.2.
Proof. unfold sys_settle. by destruct (r.1). Qed.

Lemma prototype_step a sys sys' :
  sys_step a sys = Some sys' ->
  prototype_lastActive (sys_server sys')
  = match a with
    | ActInvoke env _ c =>
        if String.eqb (c_kioskId c) "__proto__" then Some (now env)
        else prototype_lastActive (sys_server sys)
    | _ => prototype_lastActive (sys_server sys)
    end.
Proof.
  destruct a as [env sid c|env sid ev|now'].
  - intros [_ ->]%sys_step_invoke. rewrite server_of_settle.
    by rewrite (continuation_prototype _ _ _ _ (resolve_cases _ _ _)).
  - intros (fr & aw & r & _ & Hr & ->)%sys_step_resume. rewrite server_of_settle.
    by apply continuation_prototype in Hr.
  - by intros [= <-].
Qed.

Lemma prototype_run acts : forall sys sys',
  sys_run acts sys = Some sys' ->
  is_Some (prototype_lastActive (sys_server sys'))
  <-> is_Some (prototype_lastActive (sys_server sys))
      \/ exists t, submitted_at "__proto__" t acts.
Proof.
  induction acts as [|a acts IH]; intros sys sys'; simpl.
  - intros [= <-]. split; [by left|].
    intros [?|(t & env & sid & c & Hin & _)]; [done|]. by apply elem_of_nil in Hin.
  - destruct (sys_step a sys) as [sys1|] eqn:Hstep; [|done]. intros Hrun.
    rewrite (IH _ _ Hrun), (prototype_step _ _ _ Hstep). split.
    + intros [H1|(t & env & sid & c & Hin & Hk & Ht)].
      * destruct a as [env sid c| |]; try by left.
        destruct (String.eqb_spec (c_kioskId c) "__proto__") as [Hk|Hk]; [|by left].
        right. exists (now env), env, sid, c. split; [apply list_elem_of_here|done].
      * right. exists t, env, sid, c. split; [by apply list_elem_of_further|done].
    + intros [H0|(t & env & sid & c & Hin & Hk & Ht)].
      * left. destruct a as [env sid c| |]; try done.
        by destruct (String.eqb (c_kioskId c) "__proto__").
      * apply elem_of_cons in Hin as [<-|Hin].
        -- left. by rewrite Hk.
        -- right. by exists t, env, sid, c.
Qed.

(** X3: in every state the loop reaches, the status endpoint answers 200
    with the kiosk's current counters exactly for the four kiosks of the
    allow-list.  An id that names a member of [Object.prototype] (such as
    [constructor] or [toString]) is also answered 200, without counters.
    The id [lastActive] gets 404 as long as no call with the kiosk id
    [__proto__] has been started, and 200 without counters from the first
    such call on; every other id gets 404. *)
Theorem kiosk_status_answers acts sys queueSize k :
  sys_run acts system_init = Some sys ->
  (k ∈ allow_list ->
     exists st, stats_of sys !! k = Some st
       /\ kiosk_status queueSize k (sys_server sys) = (200, KioskStatus k st queueSize))
  /\ (k ∈ Object_prototype_keys ->
      kiosk_status queueSize k (sys_server sys) = (200, KioskStatusInherited k queueSize))
  /\ (k ∉ allow_list -> k ∉ Object_prototype_keys -> k <> "lastActive" ->
      kiosk_status queueSize k (sys_server sys) = (404, KioskInvalid "Invalid kiosk ID"))
  /\ (k = "lastActive" ->
      ((exists t, submitted_at "__proto__" t acts) ->
       kiosk_status queueSize k (sys_server sys)
       = (200, KioskStatusInherited k queueSize))
      /\ (~ (exists t, submitted_at "__proto__" t acts) ->
          kiosk_status queueSize k (sys_server sys)
          = (404, KioskInvalid "Invalid kiosk ID"))).
Proof.
  intros Hrun. pose proof (inv_reachable acts sys Hrun) as Hinv.
  pose proof (inv_allow_list sys Hinv) as Hdom. unfold stats_of in *.
  assert (Hin : forall k, k ∈ dom (kioskStats (sys_server sys)) <-> k ∈ allow_list).
  { intros k'. rewrite Hdom. unfold kioskStats_init, allow_list.
    rewrite !dom_insert_L, dom_empty_L. rewrite !elem_of_union, !elem_of_singleton.
    rewrite !elem_of_cons, elem_of_nil. rewrite elem_of_empty. tauto. }
  pose proof (prototype_run acts system_init sys Hrun) as Hproto.
  unfold kiosk_status, js_lookup. split; [|split; [|split]].
  - intros Hk. apply Hin, elem_of_dom in Hk as [st Hst]. exists st. by rewrite Hst.
  - intros Hk.
    assert (Hnot : k ∉ allow_list).
    { unfold Object_prototype_keys in Hk. unfold allow_list.
      repeat (apply elem_of_cons in Hk as [->|Hk];
              [intros Hc; repeat (apply elem_of_cons in Hc as [Hc|Hc]; [discriminate|]);
               by apply elem_of_nil in Hc|]).
      by apply elem_of_nil in Hk. }
    destruct (kioskStats (sys_server sys) !! k) as [st|] eqn:Hst.
    { exfalso. apply Hnot, Hin, elem_of_dom. eauto. }
    by rewrite (bool_decide_eq_true_2 _ Hk).
  - intros Hk Hkeys Hla.
    destruct (kioskStats (sys_server sys) !! k) as [st|] eqn:Hst.
    { exfalso. apply Hk, Hin, elem_of_dom. eauto. }
    rewrite (bool_decide_eq_false_2 _ Hkeys).
    assert (String.eqb k "lastActive" = false) as -> by (by apply String.eqb_neq).
    by rewrite andb_false_r.
  - intros ->.
    assert (Hnone : kioskStats (sys_server sys) !! "lastActive" = None).
    { destruct (kioskStats (sys_server sys) !! "lastActive") as [st|] eqn:Hst; [|done].
      exfalso. assert (Hal : "lastActive" ∈ allow_list) by (apply Hin, elem_of_dom; eauto).
      unfold allow_list in Hal.
      repeat (apply elem_of_cons in Hal as [Hal|Hal]; [discriminate|]).
      by apply elem_of_nil in Hal. }
    rewrite Hnone.
    assert (Hkeys : bool_decide ("lastActive" ∈ Object_prototype_keys) = false)
      by (vm_compute; reflexivity).
    rewrite Hkeys. cbn [orb String.eqb]. split.
    + intros Hsub. rewrite bool_decide_eq_true_2; [done|]. apply Hproto. by right.
    + intros Hsub. rewrite bool_decide_eq_false_2; [done|].
      intros [[]%is_Some_None|?]%Hproto. done.
Qed.

Lemma kiosk_status_answers_witness :
  exists sys,
    sys_run sample_run system_init = Some sys
    /\ kiosk_status 0 "kiosk-2" (sys_server sys)
       = (200, KioskStatus "kiosk-2" (mkStat 2 1 1 (Some 1001)) 0)
    /\ kiosk_status 0 "constructor" (sys_server sys)
       = (200, KioskStatusInherited "constructor" 0)
    /\ kiosk_status 0 "kiosk-9" (sys_server sys) = (404, KioskInvalid "Invalid kiosk ID").
Proof.
  eexists. split; [vm_compute; reflexivity|].
  destruct (kiosk_status_answers sample_run _ 0 "constructor" eq_refl) as (_ & Hproto & _).
  split; [vm_compute; reflexivity|]. split; [|vm_compute; reflexivity].
  apply Hproto. unfold Object_prototype_keys. apply list_elem_of_here.
Defined.

(** The status of [lastActive] before and after a call with the kiosk id
    [__proto__]. *)
Example kiosk_status_of_lastActive :
  let polluting := mkCall "selfie-bytes" (Some "image/jpeg") "tcs50-vondelpark" "female"
                     "medium" "__proto__" in
  kiosk_status 0 "lastActive" server_init = (404, KioskInvalid "Invalid kiosk ID")
  /\ (sys_server <$> sys_run [ActInvoke (mkTurn 1000 0) "3f2a9c1e-0001" polluting] system_init)
     ≫= (fun srv => Some (kiosk_status 0 "lastActive" srv))
     = Some (200, KioskStatusInherited "lastActive" 0).
Proof. split; vm_compute; reflexivity. Qed.

(** ** The request handler, once more *)

(** X4: the handler hands a task to the queue exactly when the request
    carries a non-empty [backgroundId] and [gender] and a file and the
    backlog is at most 10.  The task then carries the request's own fields,
    [prominence] being [medium] when the request has none, under the kiosk
    id of the header (or [unknown]); its priority is 1 for [kiosk-3] and 0
    for every other kiosk. *)
Theorem handler_enqueues_iff queueSize req call priority :
  generate_handler queueSize req = QueueAdd call priority
  <-> has_required_fields req
      /\ (queueSize <= 10)%nat
      /\ body_backgroundId req = Some (c_backgroundId call)
      /\ body_gender req = Some (c_gender call)
      /\ file req = Some (mkFile (c_fileBuffer call) (c_mimetype call))
      /\ c_prominence call = default "medium" (body_prominence req)
      /\ c_kioskId call = kioskId_of req
      /\ priority = (if String.eqb (kioskId_of req) "kiosk-3" then 1 else 0).
Proof.
  split.
  - intros Hadd.
    assert (Hreq : has_required_fields req).
    { unfold generate_handler in Hadd. unfold has_required_fields.
      destruct (body_backgroundId req) as [b|], (body_gender req) as [g|],
               (file req) as [f|]; try done.
      destruct (truthy_str (Some b)), (truthy_str (Some g)); try done; eauto. }
    destruct (generate_handler_fields queueSize req Hreq)
      as (b & g & [fb fm] & Hb & Hg & Hf & Heq).
    rewrite Heq in Hadd. destruct (10 <? queueSize)%nat eqn:Hq; [done|].
    injection Hadd as <- <-. cbn. apply Nat.ltb_ge in Hq. auto 10.
  - intros (Hreq & Hq & Hb & Hg & Hf & Hp & Hk & ->).
    destruct (generate_handler_fields queueSize req Hreq)
      as (b & g & f & Hb' & Hg' & Hf' & ->).
    apply Nat.ltb_ge in Hq. rewrite Hq. rewrite Hb in Hb'. rewrite Hg in Hg'.
    rewrite Hf in Hf'. injection Hb' as <-. injection Hg' as <-. injection Hf' as <-.
    cbn. rewrite <- Hp, <- Hk. by destruct call.
Qed.

(** ** Turns of a job, once more *)

(** X5: a turn of a job ends in a thrown error only at the failure
    points of steps 1 to 4, with that failure's error, and ends in a returned
    result only when the write of the artifact has succeeded; so whatever
    [applyOverlay] meets, it never fails a job. *)
Theorem job_turn_outcomes env k srv fr o srv' :
  job_turn env k srv = Some (Finished fr o, srv') ->
  fr = turn_frame env k
  /\ match o with
     | Thrown e => turn_failure env k srv = Some e
     | Returned _ =>
         exists filename buffer u,
           k = TResume fr (AwWriteFile filename buffer) (EvWriteFile (Fulfilled u))
     end.
Proof.
  destruct k as [sid c|fr0 aw ev]; cbn [job_turn turn_frame turn_failure].
  - unfold processGeneration_invoke, pg_resolve, pg_catch. cbn [fr_call].
    destruct (resolve_background _ _); intros [= <- <- <-]; done.
  - unfold processGeneration_resume, pg_catch, pg_complete.
    destruct aw, ev as [[v|e]| |[parts|e]| |[u|e]]; try done;
      try destruct (first_image parts); intros [= <- <- <-]; try done.
    split; [done|]. eauto.
Qed.

Lemma job_turn_outcomes_witness :
  let fr := mkFrame (sample_call "tcs50-vondelpark") "3f2a9c1e-0001" 1000 in
  let k := TResume fr (AwOverlay "png-bytes") (EvOverlay (OverlayFails (Error "sharp"))) in
  (exists aw, job_turn (mkTurn 9100 0) k server_init = Some (Suspended fr aw, server_init))
  /\ forall o srv',
       job_turn (mkTurn 9100 0) k server_init = Some (Finished fr o, srv') -> False.
Proof.
  intros fr k. split; [eexists; reflexivity|].
  intros o srv' H.
  destruct (job_turn_outcomes (mkTurn 9100 0) k server_init fr o srv' H) as [_ Ho].
  destruct o as [r|e]; [destruct Ho as (? & ? & ? & [=])|discriminate Ho].
Defined.

Lemma resume_advances env ev fr aw srv j srv' :
  processGeneration_resume env ev fr aw srv = Some (j, srv') ->
  match j with
  | Suspended fr' aw' => fr' = fr /\ await_rank aw' = S (await_rank aw) /\ srv' = srv
  | Finished fr' _ => fr' = fr
  end.
Proof.
  unfold processGeneration_resume, pg_catch, pg_complete.
  destruct aw, ev as [[v|e]| |[parts|e]| |[u|e]]; try done;
    try destruct (first_image parts); intros [= <- <-]; done.
Qed.

Lemma await_rank_bound aw : (await_rank aw <= 5)%nat.
Proof. destruct aw; cbn; lia. Qed.

(** X6: a call of [processGeneration] is over after at most six
    resumptions: each accepted settlement takes it exactly one [await]
    further without touching the server, or ends it, a call that is over
    accepts no settlement, and its locals (kiosk, session id, start time)
    never change on the way. *)
Theorem job_needs_at_most_six_resumptions steps : forall fr aw srv j srv',
  job_resume_all steps (Suspended fr aw) srv = Some (j, srv') ->
  (length steps + await_rank aw <= 6)%nat
  /\ match j with
     | Suspended fr' aw' =>
         fr' = fr /\ await_rank aw' = (length steps + await_rank aw)%nat /\ srv' = srv
     | Finished fr' _ => fr' = fr
     end.
Proof.
  induction steps as [|[env ev] steps IH]; intros fr aw srv j srv' Hrun;
    cbn [job_resume_all] in Hrun.
  - injection Hrun as <- <-. pose proof (await_rank_bound aw). cbn. split; [lia|done].
  - destruct (processGeneration_resume env ev fr aw srv) as [[j1 srv1]|] eqn:E; [|done].
    pose proof (resume_advances env ev fr aw srv j1 srv1 E) as Hadv.
    destruct j1 as [fr1 aw1|fr1 o1].
    + destruct Hadv as (-> & Hrank & ->).
      destruct (IH fr aw1 srv j srv' Hrun) as [Hlen Hj]. cbn [length].
      split; [lia|]. destruct j as [fr' aw'|fr' o']; [|done].
      destruct Hj as (-> & Hr & ->). split; [done|]. split; [lia|done].
    + destruct steps as [|[env' ev'] steps]; cbn [job_resume_all] in Hrun; [|done].
      injection Hrun as <- <-. pose proof (await_rank_bound aw). cbn [length].
      split; [lia|done].
Qed.

Lemma job_needs_at_most_six_resumptions_witness :
  let fr := mkFrame (sample_call "tcs50-vondelpark") "3f2a9c1e-0001" 1000 in
  let steps :=
    [ (mkTurn 1010 0, EvReadFile (Fulfilled "background-bytes"));
      (mkTurn 1011 0, EvInlineData); (mkTurn 1012 0, EvInlineData);
      (mkTurn 9000 0, EvGenerate (Fulfilled [mkPart (Some "cG5nLWJ5dGVz") "png-bytes"]));
      (mkTurn 9100 0, EvOverlay OverlayMissing);
      (mkTurn 9200 0, EvWriteFile (Fulfilled ())) ] in
  exists j srv',
    job_resume_all steps
      (Suspended fr (AwReadFile (mkBg "Vondelpark" "TCS50-Vondelpark.png"))) server_init
    = Some (j, srv')
    /\ (length steps + 0 <= 6)%nat
    /\ exists o, j = Finished fr o.
Proof.
  intros fr steps.
  destruct (job_resume_all steps
              (Suspended fr (AwReadFile (mkBg "Vondelpark" "TCS50-Vondelpark.png")))
              server_init) as [[j srv']|] eqn:Hrun; [|vm_compute in Hrun; discriminate].
  exists j, srv'. split; [reflexivity|].
  destruct (job_needs_at_most_six_resumptions steps fr _ _ j srv' Hrun) as [Hlen Hj].
  split; [exact Hlen|].
  destruct j as [fr' aw'|fr' o]; [|exists o; by rewrite Hj].
  destruct Hj as (_ & Hrank & _). pose proof (await_rank_bound aw'). cbn in Hrank. lia.
Defined.

(** X7: when [applyOverlay] has settled and the write of the artifact
    then succeeds, the job returns and is recorded as completed.  The
    artifact is named [marathon_<kiosk>_<time>_<8 characters of the session
    id>.png] with the time at which the overlay settled, the bytes written
    are the generated image itself when the overlay asset is missing or
    compositing fails, the session holds that name, the response's
    [imageUrl] is [/outputs/] followed by it, [processingTime] is the time of
    the completing turn minus the start time, and the completed counter of
    an allow-listed kiosk goes up by exactly one. *)
Theorem generated_image_is_saved_and_recorded env1 env2 w u fr buffer srv :
  let filename := output_filename env1 fr in
  exists srv',
    job_resume_all [(env1, EvOverlay w)] (Suspended fr (AwOverlay buffer)) srv
    = Some (Suspended fr (AwWriteFile filename (applyOverlay w buffer)), srv)
    /\ (forall e, applyOverlay OverlayMissing buffer = buffer
                  /\ applyOverlay (OverlayFails e) buffer = buffer)
    /\ job_resume_all [(env1, EvOverlay w); (env2, EvWriteFile (Fulfilled u))]
         (Suspended fr (AwOverlay buffer)) srv
       = Some (Finished fr
                 (Returned
                    {| r_imageUrl := "/outputs/" +:+ filename;
                       r_sessionId := fr_sessionId fr;
                       r_kioskId := c_kioskId (fr_call fr);
                       r_queueSize := queue_size env2;
                       r_processingTime := now env2 - fr_startTime fr |}), srv')
    /\ success_recorded env2 fr filename srv srv'.
Proof.
  intros filename. eexists. split; [reflexivity|]. split; [done|].
  split; [reflexivity|].
  unfold success_recorded. cbn [activeSessions kioskStats].
  split; [|split; [|split]].
  - eexists. rewrite JsMap_get_set_eq. split; [done|]. cbn.
    repeat (split; [done|]). intros s0 ->. done.
  - intros sid Hne. by rewrite JsMap_get_set_ne.
  - destruct (kioskStats srv !! c_kioskId (fr_call fr)) as [st|] eqn:Hst.
    + exists (bump_completed st). rewrite lookup_alter_eq, Hst. by cbn.
    + apply map_eq. intros k. rewrite lookup_alter.
      case_decide; [subst; by rewrite Hst | done].
  - intros k Hne. by rewrite lookup_alter_ne.
Qed.

(** ** The first image of an answer *)

(** X8: of the parts of the model's answer the job uses the first one
    whose inline data text is non-empty: parts before it have none, parts
    after it are ignored.  The job goes on to the overlay with the decoding
    of that text, also when the decoding has no bytes; it fails with
    [No image generated] exactly when no part has a non-empty data text. *)
Theorem first_image_is_first_with_data parts :
  match first_image parts with
  | Some buffer =>
      (exists before p after,
         parts = before ++ p :: after
         /\ Forall (fun p => truthy_str (part_data p) = false) before
         /\ (exists text, part_data p = Some text /\ text <> "")
         /\ buffer = part_bytes p)
      /\ forall env fr srv,
           processGeneration_resume env (EvGenerate (Fulfilled parts)) fr AwGenerate srv
           = Some (Suspended fr (AwOverlay buffer), srv)
           /\ turn_failure env (TResume fr AwGenerate (EvGenerate (Fulfilled parts))) srv
              = None
  | None =>
      Forall (fun p => truthy_str (part_data p) = false) parts
      /\ forall env fr srv,
           processGeneration_resume env (EvGenerate (Fulfilled parts)) fr AwGenerate srv
           = Some (pg_catch env fr (Error "No image generated") srv)
           /\ turn_failure env (TResume fr AwGenerate (EvGenerate (Fulfilled parts))) srv
              = Some (Error "No image generated")
  end.
Proof.
  destruct (first_image parts) as [buffer|] eqn:Hfi.
  - split; [|intros env fr srv; cbn [processGeneration_resume turn_failure];
              by rewrite Hfi].
    revert buffer Hfi. induction parts as [|[d b] parts IH]; [done|].
    intros buffer. cbn [first_image part_data part_bytes].
    destruct (truthy_str d) eqn:Ht.
    + intros [= <-]. exists [], (mkPart d b), parts.
      split; [done|]. split; [constructor|]. split; [|done].
      destruct d as [text|]; [|done]. exists text. split; [done|].
      intros ->. done.
    + intros Hfi. destruct (IH _ Hfi) as (before & p & after & -> & Hbefore & Hp & ->).
      exists (mkPart d b :: before), p, after.
      split; [done|]. split; [by constructor|]. by split.
  - split; [|intros env fr srv; cbn [processGeneration_resume turn_failure];
              by rewrite Hfi].
    induction parts as [|[d b] parts IH]; [constructor|].
    cbn [first_image part_data] in Hfi.
    destruct (truthy_str d) eqn:Ht; [done|]. constructor; [done|by apply IH].
Qed.

(** A data text that decodes to no bytes is used all the same: the job
    goes on with an empty image, and the later parts are not looked at. *)
Example part_with_empty_decoding_is_used :
  first_image [mkPart (Some "====") ""; mkPart (Some "cG5nLWJ5dGVz") "png-bytes"]
  = Some "".
Proof. reflexivity. Qed.

(** ** The shape of the registry *)

Section RegistryFacts.
Context {V : Type}.
Implicit Types (m : list (string * V)) (k : string) (v : V).

Lemma JsMap_get_None_fresh k m : JsMap.get k m = None <-> k ∉ m.*1.
Proof.
  induction m as [|[k' v'] m IH]; cbn [JsMap.get fmap list_fmap fst].
  - split; [intros _; apply not_elem_of_nil | done].
  - rewrite not_elem_of_cons. destruct (decide (k' = k)) as [->|Hne].
    + split; [done | intros [? _]; done].
    + rewrite IH. split; [intros ?; split; [congruence|done] | intros [_ ?]; done].
Qed.

Lemma JsMap_set_keys k v m :
  (JsMap.set k v m).*1 = if JsMap.get k m is Some _ then m.*1 else m.*1 ++ [k].
Proof.
  induction m as [|[k' v'] m IH]; cbn [JsMap.get JsMap.set]; [done|].
  destruct (decide (k' = k)) as [->|Hne]; [done|].
  rewrite fmap_cons, IH. cbn [fst]. by destruct (JsMap.get k m).
Qed.

Lemma JsMap_set_NoDup k v m : NoDup m.*1 -> NoDup (JsMap.set k v m).*1.
Proof.
  intros Hnd. rewrite JsMap_set_keys. destruct (JsMap.get k m) eqn:E; [done|].
  apply NoDup_app. split; [done|]. split; [|apply NoDup_singleton].
  intros x Hx ->%list_elem_of_singleton. by apply JsMap_get_None_fresh in E.
Qed.

Lemma JsMap_set_Forall (P : string * V -> Prop) k v m :
  P (k, v) -> Forall P m -> Forall P (JsMap.set k v m).
Proof.
  intros Hkv. induction 1 as [|[k' v'] m Hx Hm IH]; cbn [JsMap.set].
  - by constructor.
  - destruct (decide (k' = k)); by constructor.
Qed.

Lemma JsMap_get_Forall (P : string * V -> Prop) k v m :
  Forall P m -> JsMap.get k m = Some v -> P (k, v).
Proof.
  induction 1 as [|[k' v'] m Hx _ IH]; cbn [JsMap.get]; [done|].
  destruct (decide (k' = k)) as [->|]; [by intros [= <-]|done].
Qed.

Lemma JsMap_get_elem k v m : NoDup m.*1 -> (k, v) ∈ m -> JsMap.get k m = Some v.
Proof.
  induction m as [|[k' v'] m IH]; [by intros _ ?%elem_of_nil|].
  rewrite fmap_cons. cbn [fst JsMap.get]. intros [Hk Hnd]%NoDup_cons Hin.
  apply elem_of_cons in Hin as [[= -> ->]|Hin].
  - by rewrite decide_True.
  - rewrite decide_False; [by apply IH|]. intros ->. apply Hk.
    apply list_elem_of_fmap. by exists (k, v).
Qed.

Lemma JsMap_delete_absent k m : k ∉ m.*1 -> JsMap.delete k m = m.
Proof.
  unfold JsMap.delete. induction m as [|[k' v'] m IH]; [done|].
  rewrite fmap_cons, not_elem_of_cons. cbn [fst]. intros [Hne Hnin].
  rewrite filter_cons. cbn [fst]. rewrite decide_True by done. by rewrite IH.
Qed.

End RegistryFacts.

Lemma reap_sessions_fold now (l : list (string * Session)) : forall kept n,
  NoDup (kept ++ l).*1 ->
  fold_left
    (fun (acc : list (string * Session) * nat) (e : string * Session) =>
       if session_is_old (now - 60 * 60 * 1000) e.2
       then (JsMap.delete e.1 acc.1, S acc.2) else acc)
    l (kept ++ l, n)
  = (kept ++ filter (fun e => ~ reaped_at now e) l,
     (n + length (filter (reaped_at now) l))%nat).
Proof.
  induction l as [|[k s] l IH]; intros kept n Hnd; cbn [fold_left].
  - rewrite !filter_nil. cbn. by rewrite Nat.add_0_r.
  - cbn [fst snd]. rewrite !filter_cons.
    destruct (decide (reaped_at now (k, s))) as [Hr|Hr].
    + rewrite decide_False by (intros H; by apply H).
      assert (Hold : session_is_old (now - 60 * 60 * 1000) s = true) by exact Hr.
      rewrite Hold.
      assert (Hdel : JsMap.delete k (kept ++ (k, s) :: l) = kept ++ l).
      { rewrite fmap_app, fmap_cons in Hnd. cbn [fst] in Hnd.
        apply NoDup_app in Hnd as (Hk1 & Hk2 & Hk3). apply NoDup_cons in Hk3 as [Hk3 _].
        unfold JsMap.delete. rewrite filter_app, filter_cons. cbn [fst].
        rewrite decide_False by (intros H; by apply H).
        fold (JsMap.delete k kept). fold (JsMap.delete k l).
        rewrite !JsMap_delete_absent; [done|done|].
        intros Hin. apply (Hk2 k Hin). apply list_elem_of_here. }
      rewrite Hdel, IH.
      * cbn [length]. f_equal. lia.
      * rewrite fmap_app, fmap_cons in Hnd. rewrite fmap_app.
        apply NoDup_app in Hnd as (Hk1 & Hk2 & Hk3). apply NoDup_cons in Hk3 as [_ Hk3].
        apply NoDup_app. split; [done|]. split; [|done].
        intros x Hx Hx'. apply (Hk2 x Hx). by apply list_elem_of_further.
    + rewrite decide_True by done.
      assert (Hold : session_is_old (now - 60 * 60 * 1000) s = false).
      { destruct (session_is_old (now - 60 * 60 * 1000) s) eqn:E; [|done].
        exfalso. by apply Hr. }
      rewrite Hold.
      replace (kept ++ (k, s) :: l) with ((kept ++ [(k, s)]) ++ l)
        by (by rewrite <- app_assoc).
      rewrite IH; [by rewrite <- app_assoc|]. by rewrite <- app_assoc.
Qed.

Lemma reap_sessions_exact now (sessions : list (string * Session)) :
  NoDup sessions.*1 ->
  reap_sessions now sessions
  = (filter (fun e => ~ reaped_at now e) sessions,
     length (filter (reaped_at now) sessions)).
Proof.
  intros Hnd. unfold reap_sessions, JsMap.entries.
  apply (reap_sessions_fold now sessions [] 0%nat Hnd).
Qed.

Lemma session_opened_wf c t : session_wf (session_opened c t).
Proof. unfold session_wf. cbn. repeat split; eauto. Qed.

Lemma terminal_write_wf (base : option Session) :
  (forall s0, base = Some s0 -> session_wf s0 /\ s_status s0 = processing) ->
  (forall t filename, session_wf (session_completed base t filename))
  /\ (forall msg t, session_wf (session_failed base msg t)).
Proof.
  intros Hbase.
  assert (Hnone : base ≫= s_error = None /\ base ≫= s_outputFile = None).
  { destruct base as [s0|]; [|done]. destruct (Hbase s0 eq_refl) as [Hwf Hp].
    unfold session_wf in Hwf. rewrite Hp in Hwf. cbn. tauto. }
  destruct Hnone as [He Ho].
  split; intros; unfold session_wf; cbn; repeat split; eauto.
Qed.

Lemma sessions_of_settle sid r sys :
  sessions_of (sys_settle sid r sys) = activeSessions r.2.
Proof. unfold sessions_of, sys_settle. by destruct (r.1). Qed.

Lemma wf_set sid s (sessions : list (string * Session)) :
  session_wf s -> registry_wf sessions -> registry_wf (JsMap.set sid s sessions).
Proof.
  intros Hs [Hnd Hall]. split; [by apply JsMap_set_NoDup|].
  by apply JsMap_set_Forall.
Qed.

Lemma wf_continue env sid fr aw r sys :
  sys_inv sys ->
  registry_wf (sessions_of sys) ->
  sys_jobs sys !! sid = Some (fr, aw) ->
  continuation_result env fr (sys_server sys) r ->
  registry_wf (sessions_of (sys_settle sid r sys)).
Proof.
  intros Hinv Hwf Hjob Hr. rewrite sessions_of_settle.
  pose proof (inv_frame sys Hinv sid fr aw Hjob) as Hsid.
  assert (Hbase : forall s0,
             JsMap.get (fr_sessionId fr) (activeSessions (sys_server sys)) = Some s0 ->
             session_wf s0 /\ s_status s0 = processing).
  { intros s0 Hget. rewrite Hsid in Hget. split.
    - destruct Hwf as [_ Hall].
      apply (JsMap_get_Forall (fun e : string * Session => session_wf e.2) sid s0 _ Hall Hget).
    - by eapply (inv_suspended_processing sys Hinv). }
  destruct (terminal_write_wf _ Hbase) as [Hc Hf].
  destruct Hr as [[aw' ->]|[[fn ->]|[e ->]]]; [done| |];
    unfold pg_complete, pg_catch; cbn [snd activeSessions]; by apply wf_set.
Qed.

Lemma wf_step a sys sys' :
  sys_inv sys -> registry_wf (sessions_of sys) -> sys_step a sys = Some sys' ->
  registry_wf (sessions_of sys').
Proof.
  intros Hinv Hwf Hstep. destruct a as [env sid c|env sid ev|now].
  - apply sys_step_invoke in Hstep as [Hfresh ->].
    eapply wf_continue; [by apply inv_open| |apply sys_open_job|apply resolve_cases].
    unfold sessions_of, sys_open, pg_open. cbn [sys_server activeSessions].
    apply wf_set; [apply session_opened_wf|done].
  - apply sys_step_resume in Hstep as (fr & aw & r & Hjob & Hr & ->).
    by eapply wf_continue.
  - cbn [sys_step] in Hstep. injection Hstep as <-.
    unfold sessions_of in *. cbn [sys_server activeSessions].
    destruct Hwf as [Hnd Hall]. rewrite reap_sessions_exact by done. cbn [fst].
    split.
    + eapply sublist_NoDup; [exact Hnd | apply fmap_sublist, sublist_filter].
    + apply Forall_forall. intros e [_ He]%list_elem_of_filter.
      rewrite Forall_forall in Hall. by apply Hall.
Qed.

Lemma wf_run acts : forall sys sys',
  sys_inv sys -> registry_wf (sessions_of sys) -> sys_run acts sys = Some sys' ->
  registry_wf (sessions_of sys').
Proof.
  induction acts as [|a acts IH]; intros sys sys' Hinv Hwf Hrun; cbn [sys_run] in Hrun.
  - by injection Hrun as <-.
  - destruct (sys_step a sys) as [sys1|] eqn:E; [|done].
    eapply (IH sys1); [by eapply inv_step|by eapply wf_step|done].
Qed.

Lemma wf_init : registry_wf (sessions_of system_init).
Proof. split; constructor. Qed.

Lemma registry_is_well_formed_aux acts sys :
  sys_run acts system_init = Some sys ->
  NoDup (sessions_of sys).*1
  /\ Forall (fun e : string * Session => session_wf e.2) (sessions_of sys).
Proof. intros Hrun. exact (wf_run acts system_init sys inv_init wf_init Hrun). Qed.

(** X9: in every state the loop reaches the registry holds its sessions
    under distinct ids, and each has the shape of its status: a processing
    session has a kiosk id and a start time and no end time, output file or
    error; a completed one has an end time and an output file and no error; a
    failed one has an end time and an error and no output file. *)
Theorem registry_is_well_formed acts sys :
  sys_run acts system_init = Some sys ->
  NoDup (sessions_of sys).*1
  /\ forall sid s, JsMap.get sid (sessions_of sys) = Some s -> session_wf s.
Proof.
  intros Hrun.
  destruct (registry_is_well_formed_aux acts sys Hrun) as [Hnd Hall].
  split; [done|]. intros sid s Hget.
  apply (JsMap_get_Forall (fun e : string * Session => session_wf e.2) sid s _ Hall Hget).
Qed.

Lemma registry_is_well_formed_witness :
  exists sys,
    sys_run sample_run system_init = Some sys
    /\ NoDup (sessions_of sys).*1
    /\ forall sid s, JsMap.get sid (sessions_of sys) = Some s -> session_wf s.
Proof.
  eexists. split; [vm_compute; reflexivity|].
  apply (registry_is_well_formed sample_run). vm_compute. reflexivity.
Defined.

(** ** The session reaper *)

Lemma JsMap_get_filter {V} (P : string * V -> Prop) `{!forall x, Decision (P x)}
    (k : string) (m : list (string * V)) :
  NoDup m.*1 ->
  JsMap.get k (filter P m)
  = match JsMap.get k m with
    | Some v => if decide (P (k, v)) then Some v else None
    | None => None
    end.
Proof.
  induction m as [|[k' v'] m IH]; [done|].
  rewrite fmap_cons. cbn [fst]. intros [Hk Hnd]%NoDup_cons.
  rewrite filter_cons. cbn [JsMap.get].
  destruct (decide (k' = k)) as [->|Hne].
  - destruct (decide (P (k, v'))); cbn [JsMap.get].
    + by rewrite decide_True.
    + rewrite IH by done. apply JsMap_get_None_fresh in Hk. by rewrite Hk.
  - destruct (decide (P (k', v'))); cbn [JsMap.get]; [rewrite decide_False by done|];
      by apply IH.
Qed.

(** X10: in every state the loop reaches, a run of the session reaper
    removes exactly the sessions that started more than 60 minutes ago,
    whatever their status (a job still processing loses its session too),
    keeps all others in their order, counts what it removed, and finds
    nothing left to remove when run again at the same instant. *)
Theorem session_reaper_removes_exactly_the_old acts sys now :
  sys_run acts system_init = Some sys ->
  let r := reap_sessions now (sessions_of sys) in
  r.1 = filter (fun e => ~ reaped_at now e) (sessions_of sys)
  /\ r.2 = length (filter (reaped_at now) (sessions_of sys))
  /\ (forall sid s,
        JsMap.get sid (sessions_of sys) = Some s ->
        JsMap.get sid r.1
        = match s_startTime s with
          | Some t => if decide (t < now - 60 * 60 * 1000) then None else Some s
          | None => Some s
          end)
  /\ reap_sessions now r.1 = (r.1, 0%nat).
Proof.
  intros Hrun r. destruct (registry_is_well_formed_aux acts sys Hrun) as [Hnd _].
  subst r. rewrite reap_sessions_exact by done. cbn [fst snd].
  split; [done|]. split; [done|]. split.
  - intros sid s Hget. rewrite JsMap_get_filter by done. rewrite Hget.
    destruct (decide (reaped_at now (sid, s))) as [Hr|Hr].
    + rewrite decide_False by (intros H; by apply H).
      unfold reaped_at, session_is_old in Hr. cbn [snd] in Hr.
      destruct (s_startTime s) as [t|]; [|done].
      apply Z.ltb_lt in Hr. by rewrite decide_True.
    + rewrite decide_True by done.
      unfold reaped_at, session_is_old in Hr. cbn [snd] in Hr.
      destruct (s_startTime s) as [t|]; [|done].
      rewrite decide_False; [done|]. intros Hlt%Z.ltb_lt. done.
  - rewrite reap_sessions_exact.
    + f_equal.
      * rewrite list_filter_filter. apply list_filter_iff. tauto.
      * generalize (sessions_of sys). intros l.
        induction l as [|e l IH]; [done|]. rewrite (filter_cons (fun e => ~ _)).
        destruct (decide (~ reaped_at now e)); [|exact IH].
        rewrite filter_cons, decide_False by done. exact IH.
    + eapply sublist_NoDup; [exact Hnd | apply fmap_sublist, sublist_filter].
Qed.

Lemma session_reaper_removes_exactly_the_old_witness :
  exists sys,
    sys_run sample_run system_init = Some sys
    /\ JsMap.size (sessions_of sys) = 2%nat
    /\ (reap_sessions 3601001 (sessions_of sys)).2 = 1%nat
    /\ JsMap.get "3f2a9c1e-0001" (reap_sessions 3601001 (sessions_of sys)).1 = None
    /\ (s_status <$> JsMap.get "7b1d4e2a-0002" (reap_sessions 3601001 (sessions_of sys)).1)
       = Some failed.
Proof.
  eexists. split; [vm_compute; reflexivity|]. split; [vm_compute; reflexivity|].
  pose proof (session_reaper_removes_exactly_the_old sample_run _ 3601001 eq_refl) as H.
  cbv zeta in H. destruct H as (H1 & H2 & _ & _).
  split; [etransitivity; [exact H2|vm_compute; reflexivity]|].
  vm_compute. split; reflexivity.
Defined.

(** ** A job that outlives its session *)

(** X11: when the session reaper has removed the session of a call that
    is still in flight, the call's terminal write registers the id again,
    with a status and an end time but without kiosk id and start time (the
    spread of the missing entry contributes nothing).  The monitor shows no
    duration for such an entry, and no later run of the session reaper
    removes it. *)
Theorem reaped_session_is_registered_again acts sys sid fr aw env ev sys' :
  sys_run acts system_init = Some sys ->
  sys_jobs sys !! sid = Some (fr, aw) ->
  JsMap.get sid (sessions_of sys) = None ->
  sys_step (ActResume env sid ev) sys = Some sys' ->
  sys_jobs sys' !! sid = None ->
  exists s,
    JsMap.get sid (sessions_of sys') = Some s
    /\ s_status s <> processing
    /\ s_endTime s = Some (now env)
    /\ s_kioskId s = None /\ s_startTime s = None /\ s_backgroundId s = None
    /\ duration_of s = None
    /\ forall now', JsMap.get sid (reap_sessions now' (sessions_of sys')).1 = Some s.
Proof.
  intros Hrun Hjob Hnone Hstep Hdone.
  pose proof (inv_frame _ (inv_reachable _ _ Hrun) _ _ _ Hjob) as Hsid.
  destruct (registry_is_well_formed_aux _ _ Hrun) as [Hnd _].
  simpl in Hstep. rewrite Hjob in Hstep.
  destruct (processGeneration_resume env ev fr aw (sys_server sys)) as [r|] eqn:Hres;
    [|done].
  injection Hstep as <-.
  assert (Hreap : forall (s : Session) m now',
            NoDup m.*1 -> s_startTime s = None -> JsMap.get sid m = Some s ->
            JsMap.get sid (reap_sessions now' m).1 = Some s).
  { intros s m now' Hm Hs Hget. rewrite reap_sessions_exact by done. simpl.
    rewrite JsMap_get_filter by done. rewrite Hget.
    rewrite decide_True; [done|].
    unfold reaped_at, session_is_old. simpl. by rewrite Hs. }
  unfold sessions_of in *.
  destruct (resume_cases _ _ _ _ _ _ Hres) as [[aw' ->]|[[f ->]|[e ->]]].
  - unfold sys_settle in Hdone. simpl in Hdone. by rewrite lookup_insert_eq in Hdone.
  - unfold sys_settle, pg_complete. cbn [fst snd sys_server activeSessions].
    rewrite Hsid, Hnone. eexists. split; [apply JsMap_get_set_eq|].
    repeat split; try done.
    + unfold duration_of. simpl. by destruct (now env =? 0).
    + intros now'. apply Hreap; [by apply JsMap_set_NoDup|done|apply JsMap_get_set_eq].
  - unfold sys_settle, pg_catch. cbn [fst snd sys_server activeSessions].
    rewrite Hsid, Hnone. eexists. split; [apply JsMap_get_set_eq|].
    repeat split; try done.
    + unfold duration_of. simpl. by destruct (now env =? 0).
    + intros now'. apply Hreap; [by apply JsMap_set_NoDup|done|apply JsMap_get_set_eq].
Qed.

Lemma reaped_session_is_registered_again_witness :
  exists sys sys',
    sys_run (take 7 orphan_run) system_init = Some sys
    /\ sys_step (ActResume (mkTurn 7300200 0) "3f2a9c1e-0001" (EvWriteFile (Fulfilled ())))
         sys = Some sys'
    /\ JsMap.get "3f2a9c1e-0001" (sessions_of sys) = None
    /\ exists s,
         JsMap.get "3f2a9c1e-0001" (sessions_of sys') = Some s
         /\ s_status s <> processing
         /\ s_endTime s = Some 7300200
         /\ s_kioskId s = None /\ s_startTime s = None /\ s_backgroundId s = None
         /\ duration_of s = None
         /\ forall now', JsMap.get "3f2a9c1e-0001" (reap_sessions now' (sessions_of sys')).1
                         = Some s.
Proof.
  eexists. eexists. split; [vm_compute; reflexivity|].
  split; [vm_compute; reflexivity|]. split; [vm_compute; reflexivity|].
  eapply (reaped_session_is_registered_again (take 7 orphan_run) _ "3f2a9c1e-0001" _ _
            (mkTurn 7300200 0) (EvWriteFile (Fulfilled ()))).
  - vm_compute. reflexivity.
  - vm_compute. reflexivity.
  - vm_compute. reflexivity.
  - vm_compute. reflexivity.
  - vm_compute. reflexivity.
Defined.

(** ** The kiosk counters over time *)

Lemma stats_grow_refl k m : stats_grow k [] m m.
Proof.
  unfold stats_grow. destruct (m !! k) as [st|] eqn:E; [|done].
  exists st. split; [done|]. split; [unfold stat_le; lia|by left].
Qed.

Lemma submitted_at_app_l k t a b : submitted_at k t a -> submitted_at k t (a ++ b).
Proof.
  intros (env & sid & c & Hin & H). exists env, sid, c. split; [|done].
  apply elem_of_app. by left.
Qed.

Lemma submitted_at_app_r k t a b : submitted_at k t b -> submitted_at k t (a ++ b).
Proof.
  intros (env & sid & c & Hin & H). exists env, sid, c. split; [|done].
  apply elem_of_app. by right.
Qed.

Lemma stats_grow_trans k a b m1 m2 m3 :
  stats_grow k a m1 m2 -> stats_grow k b m2 m3 -> stats_grow k (a ++ b) m1 m3.
Proof.
  unfold stats_grow. destruct (m1 !! k) as [st1|].
  - intros (st2 & -> & (?&?&?) & H12) (st3 & -> & (?&?&?) & H23).
    exists st3. split; [done|]. split; [unfold stat_le; lia|].
    destruct H23 as [E23|(t & Ht & E23)].
    + rewrite E23. destruct H12 as [E12|(t & Ht & E12)]; [by left|].
      right. exists t. split; [|done]. by apply submitted_at_app_l.
    + right. exists t. split; [|done]. by apply submitted_at_app_r.
  - by intros ->.
Qed.

Lemma stats_grow_alter k k' acts (f : KioskStat -> KioskStat) m :
  (forall st, stat_le st (f st)) ->
  (forall st, lastActive (f st) = lastActive st
              \/ exists t, submitted_at k' t acts /\ lastActive (f st) = Some t) ->
  stats_grow k acts m (alter f k' m).
Proof.
  intros Hle Hla. unfold stats_grow.
  destruct (decide (k = k')) as [->|Hne].
  - rewrite lookup_alter_eq. destruct (m !! k') as [st|]; [|done].
    exists (f st). split; [done|]. split; [apply Hle|apply Hla].
  - rewrite lookup_alter_ne by done. destruct (m !! k) as [st|] eqn:E; [|done].
    exists st. split; [done|]. split; [unfold stat_le; lia|by left].
Qed.

Lemma stats_grow_weaken k a m1 m2 : stats_grow k [] m1 m2 -> stats_grow k a m1 m2.
Proof.
  unfold stats_grow. destruct (m1 !! k); [|done].
  intros (st' & ? & ? & [?|(t & (env & sid & c & Hin & _) & _)]);
    [exists st'; split; [done|]; split; [done|by left]|].
  by apply elem_of_nil in Hin.
Qed.

Lemma stats_grow_continue k env fr srv r :
  continuation_result env fr srv r ->
  stats_grow k [] (kioskStats srv) (kioskStats r.2).
Proof.
  intros [[aw ->]|[[f ->]|[e ->]]]; simpl.
  - apply stats_grow_refl.
  - apply stats_grow_alter; [|by left]. intros st. unfold stat_le. simpl. lia.
  - apply stats_grow_alter; [|by left]. intros st. unfold stat_le. simpl. lia.
Qed.

Lemma stats_of_settle sid r sys : stats_of (sys_settle sid r sys) = kioskStats r.2.
Proof. unfold sys_settle, stats_of. by destruct (r.1). Qed.

Lemma stats_grow_step k a sys sys' :
  sys_step a sys = Some sys' -> stats_grow k [a] (stats_of sys) (stats_of sys').
Proof.
  destruct a as [env sid c|env sid ev|now'].
  - intros [_ ->]%sys_step_invoke. rewrite stats_of_settle.
    change [ActInvoke env sid c] with (([] ++ [ActInvoke env sid c]) ++ []).
    eapply stats_grow_trans; [|eapply stats_grow_continue, resolve_cases].
    unfold sys_open, pg_open, stats_of. cbn [sys_server kioskStats].
    eapply (stats_grow_trans _ _ _ _
              (alter bump_total (c_kioskId c) (kioskStats (sys_server sys)))).
    + apply stats_grow_alter; [|by left]. intros st. unfold stat_le. simpl. lia.
    + apply stats_grow_alter; [intros st; unfold stat_le; simpl; lia|].
      intros st. right. exists (now env). split; [|done].
      exists env, sid, c. split; [apply list_elem_of_here|done].
  - intros (fr & aw & r & _ & Hr & ->)%sys_step_resume. rewrite stats_of_settle.
    apply stats_grow_weaken. by eapply stats_grow_continue.
  - intros [= <-]. apply stats_grow_weaken, stats_grow_refl.
Qed.

Lemma stats_grow_run k acts : forall sys sys',
  sys_run acts sys = Some sys' -> stats_grow k acts (stats_of sys) (stats_of sys').
Proof.
  induction acts as [|a acts IH]; intros sys sys'; simpl.
  - intros [= <-]. apply stats_grow_refl.
  - destruct (sys_step a sys) as [sys1|] eqn:Hstep; [|done]. intros Hrun.
    change (a :: acts) with ([a] ++ acts).
    eapply stats_grow_trans; [by apply stats_grow_step|by apply IH].
Qed.

(** X12: over any sequence of turns the statistics keep their kiosks,
    none is added and none removed, and no counter of a kiosk ever
    decreases.  [lastActive] of a kiosk changes only when the queue starts
    one of its calls, to the instant of such a start: neither the end of a
    job nor the session reaper touches it. *)
Theorem kiosk_counters_only_grow acts sys sys' k :
  sys_run acts sys = Some sys' ->
  match stats_of sys !! k with
  | Some st =>
      exists st', stats_of sys' !! k = Some st'
        /\ (total st <= total st')%nat
        /\ (completed_count st <= completed_count st')%nat
        /\ (failed_count st <= failed_count st')%nat
        /\ (lastActive st' = lastActive st
            \/ exists env sid c, ActInvoke env sid c ∈ acts /\ c_kioskId c = k
                  /\ lastActive st' = Some (now env))
  | None => stats_of sys' !! k = None
  end.
Proof.
  intros Hrun. pose proof (stats_grow_run k acts sys sys' Hrun) as H.
  unfold stats_grow in H. destruct (stats_of sys !! k) as [st|]; [|done].
  destruct H as (st' & E & (?&?&?) & Hla). exists st'. repeat (split; [done|]).
  destruct Hla as [?|(t & (env & sid & c & Hin & Hk & <-) & Ht)]; [by left|].
  right. by exists env, sid, c.
Qed.

Lemma kiosk_counters_only_grow_witness :
  exists sys',
    sys_run sample_run system_init = Some sys'
    /\ stats_of system_init !! "kiosk-2" = Some stat0
    /\ stats_of system_init !! "kiosk-9" = None
    /\ stats_of sys' !! "kiosk-9" = None
    /\ exists st', stats_of sys' !! "kiosk-2" = Some st'
        /\ (0 <= total st')%nat
        /\ (0 <= completed_count st')%nat
        /\ (0 <= failed_count st')%nat
        /\ (lastActive st' = None
            \/ exists env sid c, ActInvoke env sid c ∈ sample_run /\ c_kioskId c = "kiosk-2"
                  /\ lastActive st' = Some (now env)).
Proof.
  eexists. split; [vm_compute; reflexivity|].
  split; [vm_compute; reflexivity|]. split; [vm_compute; reflexivity|].
  split.
  - exact (kiosk_counters_only_grow sample_run system_init _ "kiosk-9" eq_refl).
  - exact (kiosk_counters_only_grow sample_run system_init _ "kiosk-2" eq_refl).
Defined.

(** ** The monitor *)

(** X13: in every state the loop reaches, the monitor counts all
    registered sessions and lists the last 20 of the registry (all of them
    when there are fewer), in registry order.  A session still processing
    is shown without duration; a finished one is shown with the time from
    its start to its end, or without duration when its start time is gone
    or its end time is the instant 0. *)
Theorem monitor_lists_last_twenty acts sys qs qp :
  sys_run acts system_init = Some sys ->
  let rep := monitor qs qp (sys_server sys) in
  mon_totalSessions rep = length (sessions_of sys)
  /\ length (mon_recentSessions rep) = Nat.min 20 (length (sessions_of sys))
  /\ (exists older shown,
        sessions_of sys = older ++ shown
        /\ length older = (length (sessions_of sys) - 20)%nat
        /\ mon_recentSessions rep = recent_entry <$> shown)
  /\ (forall r, r ∈ mon_recentSessions rep ->
        match s_status (m_session r) with
        | processing => m_duration r = None
        | completed | failed =>
            exists e, s_endTime (m_session r) = Some e
              /\ m_duration r
                 = if decide (e = 0) then None
                   else (fun b => e - b) <$> s_startTime (m_session r)
        end).
Proof.
  intros Hrun rep. subst rep.
  destruct (registry_is_well_formed_aux _ _ Hrun) as [_ Hwf].
  unfold monitor, sessions_of, JsMap.size, JsMap.entries, slice_last in *.
  cbn [mon_totalSessions mon_recentSessions].
  set (l := activeSessions (sys_server sys)) in *.
  split; [done|]. split; [rewrite length_fmap, length_drop; lia|].
  split.
  - exists (take (length l - 20) l), (drop (length l - 20) l).
    split; [by rewrite take_drop|]. split; [rewrite length_take; lia|done].
  - intros r (e & -> & He)%list_elem_of_fmap.
    apply (Forall_drop _ (length l - 20)) in Hwf.
    rewrite Forall_forall in Hwf.
    specialize (Hwf _ He). cbv beta in Hwf. unfold session_wf in Hwf.
    unfold recent_entry, duration_of. cbn [m_session m_duration].
    destruct (s_status e.2).
    + destruct Hwf as (-> & _). done.
    + destruct Hwf as ([t Ht] & _). rewrite Ht. exists t. split; [done|].
      destruct (Z.eqb_spec t 0) as [->|Hne].
      * by rewrite decide_True.
      * rewrite decide_False by done. by destruct (s_startTime e.2).
    + destruct Hwf as ([t Ht] & _). rewrite Ht. exists t. split; [done|].
      destruct (Z.eqb_spec t 0) as [->|Hne].
      * by rewrite decide_True.
      * rewrite decide_False by done. by destruct (s_startTime e.2).
Qed.

Lemma monitor_lists_last_twenty_witness :
  exists sys,
    sys_run sample_run system_init = Some sys
    /\ length (mon_recentSessions (monitor 0 0 (sys_server sys))) = 2%nat
    /\ (m_duration <$> mon_recentSessions (monitor 0 0 (sys_server sys)))
       = [Some 8200; Some 0].
Proof.
  eexists. split; [vm_compute; reflexivity|].
  pose proof (monitor_lists_last_twenty sample_run _ 0 0 eq_refl) as H.
  cbv zeta in H. destruct H as (_ & Hlen & _).
  split; [etransitivity; [exact Hlen|vm_compute; reflexivity]|].
  vm_compute. reflexivity.
Defined.

(** ** The artifact reaper, whatever fails *)

Lemma sweep_files_deleted now files name :
  name ∈ (sweep_files now files).1 ->
  exists f, f ∈ files /\ e_name f = name /\ is_old now f /\ e_unlink f = Fulfilled ().
Proof.
  induction files as [|f files IH]; simpl; [by intros ?%elem_of_nil|].
  destruct (e_stat f) as [m|e] eqn:Hs; [|by intros ?%elem_of_nil].
  destruct (maxAge <? now - m) eqn:Hold.
  - destruct (e_unlink f) as [[]|e] eqn:Hu; [|by intros ?%elem_of_nil].
    simpl. intros [->|Hin]%elem_of_cons.
    + exists f. split; [apply list_elem_of_here|]. split; [done|]. split; [|done].
      exists m. split; [done|]. by apply Z.ltb_lt.
    + destruct (IH Hin) as (g & Hg & ?). exists g. split; [|done].
      by apply list_elem_of_further.
  - intros Hin. destruct (IH Hin) as (g & Hg & ?). exists g. split; [|done].
    by apply list_elem_of_further.
Qed.

(** X14: whatever the file system answers during a sweep, a name the
    sweep deletes is the name of a listed file whose modification time is
    more than four hours back and whose removal succeeded: a file exactly
    four hours old or younger is never deleted.  The sweep logs at most one
    error, as its last line, after one line per deleted file. *)
Theorem artifact_reaper_deletes_only_old now readdir :
  let rep := artifact_reaper now readdir in
  (forall name, name ∈ sw_deleted rep ->
     exists files f mtimeMs,
       readdir = Fulfilled files /\ f ∈ files /\ e_name f = name
       /\ e_stat f = Fulfilled mtimeMs /\ mtimeMs < now - 4 * 60 * 60 * 1000
       /\ e_unlink f = Fulfilled ())
  /\ exists tail,
       sw_log rep
       = ((fun n => ConsoleLog ("Deleted old file: " +:+ n)) <$> sw_deleted rep) ++ tail
       /\ (tail = [] \/ exists e, tail = [ConsoleError "Cleanup error:" e]).
Proof.
  intros rep. subst rep. destruct readdir as [files|e]; simpl.
  - split.
    + intros name Hin.
      destruct (sweep_files_deleted _ _ _ Hin) as (f & Hf & Hn & (m & Hm & Hlt) & Hu).
      exists files, f, m. unfold maxAge in Hlt. repeat split; try done. lia.
    + eexists. split; [done|]. destruct (sweep_files now files).2; eauto.
  - split; [by intros name ?%elem_of_nil|].
    eexists. split; [done|]. eauto.
Qed.

(** * The test script *)

Lemma successes_S results k :
  TestScript.successes results 0 (S k)
  = (TestScript.successes results 0 k
     + if TestScript.is_success (results k) then 1 else 0)%nat.
Proof.
  unfold TestScript.successes. rewrite seq_S, filter_app, length_app. simpl.
  f_equal. rewrite filter_cons, filter_nil.
  by destruct (TestScript.is_success (results k)).
Qed.

Lemma paced_requests_S images backgrounds k :
  TestScript.paced_requests images backgrounds (S k)
  = TestScript.paced_requests images backgrounds k
    ++ [TestScript.request images backgrounds k; TestScript.Delay TestScript.requestDelay].
Proof.
  unfold TestScript.paced_requests. by rewrite seq_S, flat_map_app.
Qed.

Lemma test_body_inv images backgrounds results bgIndex bg testNum k l :
  images <> [] ->
  backgrounds !! bgIndex = Some bg ->
  (1 <= testNum <= TestScript.testsPerBackground)%nat ->
  S k = (TestScript.testsPerBackground * bgIndex + testNum)%nat ->
  TestScript.loop_inv images backgrounds results k l ->
  exists l',
    TestScript.test_body images results (length backgrounds) bgIndex bg l testNum = Some l'
    /\ TestScript.loop_inv images backgrounds results (S k) l'
    /\ TestScript.stats l'
       = TestScript.record_result (bd_id bg) (results k) (TestScript.stats l).
Proof.
  intros Himg Hbg Hnum Hk (Hi & Hc & Ht & Hs & Hsf & Htt & Htr).
  pose proof (lookup_lt_Some _ _ _ Hbg) as Hlt.
  unfold TestScript.testsPerBackground in *.
  assert (Hlen : length images <> 0%nat) by (by destruct images).
  destruct (lookup_lt_is_Some_2 images (k mod length images)) as [imageFile Him];
    [by apply Nat.mod_upper_bound|].
  destruct (lookup_lt_is_Some_2 TestScript.defaultConfigs
              (k mod length TestScript.defaultConfigs)) as [config Hcfg];
    [by apply Nat.mod_upper_bound|].
  unfold TestScript.test_body. rewrite Hi, Hc, Him. cbn [mbind option_bind].
  rewrite Hcfg. cbn [mbind option_bind].
  eexists. split; [reflexivity|]. split; [|reflexivity].
  unfold TestScript.loop_inv.
  cbn [TestScript.imageIndex TestScript.calls TestScript.stats TestScript.trace].
  split; [done|]. split; [done|].
  split; [destruct (results k); simpl; by rewrite Ht|].
  split; [rewrite successes_S; destruct (results k); simpl; lia|].
  split; [destruct (results k); simpl; lia|].
  split; [cbn [TestScript.time_sum]; destruct (results k);
          cbn [TestScript.time_of TestScript.record_result TestScript.st_totalTime];
          rewrite Htt; [done|lia]|].
  rewrite decide_False in Htr by lia. rewrite app_nil_r in Htr.
  rewrite paced_requests_S, Htr, <- app_assoc. f_equal.
  assert (Hreq : TestScript.request images backgrounds k
                 = TestScript.Generate imageFile (bd_id bg) config).
  { unfold TestScript.request, TestScript.testsPerBackground.
    rewrite Him, Hcfg.
    replace (k / 3)%nat with bgIndex
      by (apply (Nat.div_unique k 3 bgIndex (testNum - 1)); lia).
    by rewrite Hbg. }
  rewrite Hreq. cbn [app]. f_equal. unfold TestScript.testsPerBackground.
  destruct (Nat.ltb_spec testNum 3), (Nat.ltb_spec bgIndex (length backgrounds - 1));
    cbn [orb app]; destruct (decide (S k = (3 * length backgrounds)%nat)); try done; lia.
Qed.

Lemma background_body_inv images backgrounds results bgIndex bg l :
  images <> [] ->
  backgrounds !! bgIndex = Some bg ->
  TestScript.loop_inv images backgrounds results (TestScript.testsPerBackground * bgIndex) l ->
  exists l',
    TestScript.background_body images results (length backgrounds) bgIndex bg l = Some l'
    /\ TestScript.loop_inv images backgrounds results
         (TestScript.testsPerBackground * S bgIndex) l'
    /\ TestScript.st_byBackground (TestScript.stats l')
       = let k := (TestScript.testsPerBackground * bgIndex)%nat in
         let count (r : TestScript.TestResult) :=
           TestScript.by_update (TestScript.count_result r) (bd_id bg) in
         count (results (2 + k)%nat) (count (results (1 + k)%nat) (count (results k)
           (TestScript.by_assign (bd_id bg) (TestScript.mkBgCount 0 0)
              (TestScript.st_byBackground (TestScript.stats l))))).
Proof.
  intros Himg Hbg Hinv. unfold TestScript.background_body.
  set (l0 := TestScript.mkLoop _ _ _ _).
  assert (Hinv0 : TestScript.loop_inv images backgrounds results
                    (TestScript.testsPerBackground * bgIndex) l0) by exact Hinv.
  unfold TestScript.testsPerBackground in *. cbn [seq foldl mbind option_bind].
  destruct (test_body_inv images backgrounds results bgIndex bg 1 (3 * bgIndex)%nat l0 Himg Hbg
              ltac:(unfold TestScript.testsPerBackground; lia)
              ltac:(unfold TestScript.testsPerBackground; lia) Hinv0)
    as (l1 & -> & Hinv1 & Hst1).
  cbn [mbind option_bind].
  destruct (test_body_inv images backgrounds results bgIndex bg 2 (S (3 * bgIndex)) l1 Himg Hbg
              ltac:(unfold TestScript.testsPerBackground; lia)
              ltac:(unfold TestScript.testsPerBackground; lia) Hinv1)
    as (l2 & -> & Hinv2 & Hst2).
  cbn [mbind option_bind].
  destruct (test_body_inv images backgrounds results bgIndex bg 3 (S (S (3 * bgIndex))) l2 Himg Hbg
              ltac:(unfold TestScript.testsPerBackground; lia)
              ltac:(unfold TestScript.testsPerBackground; lia) Hinv2)
    as (l3 & -> & Hinv3 & Hst3).
  cbn [mbind option_bind].
  exists l3. split; [done|]. split.
  - replace (3 * S bgIndex)%nat with (S (S (S (3 * bgIndex)))) by lia. exact Hinv3.
  - rewrite Hst3, Hst2, Hst1. cbv zeta.
    replace (2 + 3 * bgIndex)%nat with (S (S (3 * bgIndex))) by lia.
    replace (1 + 3 * bgIndex)%nat with (S (3 * bgIndex)) by lia.
    generalize (results (S (S (3 * bgIndex)))) (results (S (3 * bgIndex)))
      (results (3 * bgIndex)%nat).
    intros r3 r2 r1. subst l0. cbn [TestScript.stats].
    by destruct r1, r2, r3.
Qed.

Lemma three_counts results k :
  TestScript.count_result (results (S (S k)))
    (TestScript.count_result (results (S k))
       (TestScript.count_result (results k) (TestScript.mkBgCount 0 0)))
  = TestScript.mkBgCount (TestScript.successes results k 3)
      (3 - TestScript.successes results k 3).
Proof.
  unfold TestScript.count_result, TestScript.successes. cbn [seq].
  rewrite !filter_cons, filter_nil.
  destruct (TestScript.is_success (results k)),
    (TestScript.is_success (results (S k))),
    (TestScript.is_success (results (S (S k)))); reflexivity.
Qed.

Lemma by_inv_step results done bg b :
  NoDup (bd_id <$> (done ++ [bg])) ->
  TestScript.by_inv results done b ->
  let k := (TestScript.testsPerBackground * length done)%nat in
  let count (r : TestScript.TestResult) :=
    TestScript.by_update (TestScript.count_result r) (bd_id bg) in
  TestScript.by_inv results (done ++ [bg])
    (count (results (2 + k)%nat) (count (results (1 + k)%nat) (count (results k)
       (TestScript.by_assign (bd_id bg) (TestScript.mkBgCount 0 0) b)))).
Proof.
  intros Hnd [Hdone Hproto] k count. subst count.
  unfold TestScript.by_inv, TestScript.by_update, TestScript.by_assign.
  destruct (String.eqb_spec (bd_id bg) "__proto__") as [Heq|Hne].
  - simpl. split; [|done].
    intros i bg' [[_ Hi]|[_ <-]]%lookup_snoc_Some Hid; [by apply Hdone|done].
  - simpl. rewrite !alter_insert_eq. split.
    + intros i bg' [[_ Hi]|[-> <-]]%lookup_snoc_Some Hid.
      * rewrite lookup_insert_ne; [by apply Hdone|].
        intros Heq. rewrite fmap_app in Hnd. apply NoDup_app in Hnd as (_ & Hnd & _).
        apply (Hnd (bd_id bg')).
        -- apply list_elem_of_fmap_2. by eapply list_elem_of_lookup_2.
        -- rewrite <- Heq. simpl. apply list_elem_of_here.
      * rewrite lookup_insert_eq. f_equal. subst k.
        unfold TestScript.bg_count, TestScript.testsPerBackground.
        apply (three_counts results (3 * length done)).
    + by rewrite lookup_insert_ne.
Qed.

Lemma loop_inv_init images backgrounds results :
  backgrounds <> [] ->
  TestScript.loop_inv images backgrounds results 0
    (TestScript.mkLoop TestScript.stats_init 0 0 []).
Proof.
  intros Hne. unfold TestScript.loop_inv. simpl. repeat (split; [done|]).
  rewrite decide_False; [done|]. destruct backgrounds; [done|].
  unfold TestScript.testsPerBackground. simpl. lia.
Qed.

Lemma backgrounds_loop_inv images backgrounds results :
  images <> [] ->
  forall rest done l,
    backgrounds = done ++ rest ->
    TestScript.loop_inv images backgrounds results
      (TestScript.testsPerBackground * length done) l ->
    exists l',
      TestScript.backgrounds_loop images results (length backgrounds) (length done) rest l
      = Some l'
      /\ TestScript.loop_inv images backgrounds results
           (TestScript.testsPerBackground * length backgrounds) l'.
Proof.
  intros Himg. induction rest as [|bg rest IH]; intros done l Hbgs Hinv.
  - rewrite app_nil_r in Hbgs. subst done. exists l. by split.
  - assert (Hbg : backgrounds !! length done = Some bg)
      by (rewrite Hbgs; apply list_lookup_middle; done).
    destruct (background_body_inv _ _ _ _ _ _ Himg Hbg Hinv) as (l1 & Hl1 & Hinv1 & _).
    cbn [TestScript.backgrounds_loop]. rewrite Hl1. cbn [mbind option_bind].
    destruct (IH (done ++ [bg]) l1) as (l' & Hl' & Hinv').
    + by rewrite <- app_assoc.
    + rewrite length_app. simpl. by rewrite Nat.add_1_r.
    + exists l'. split; [|done]. rewrite length_app in Hl'. simpl in Hl'.
      by rewrite Nat.add_1_r in Hl'.
Qed.

Lemma runTests_completed images response results :
  images <> [] -> TestScript.getBackgrounds response <> [] ->
  exists l,
    TestScript.runTests images response results = TestScript.Completed l
    /\ TestScript.loop_inv images (TestScript.getBackgrounds response) results
         (TestScript.testsPerBackground * length (TestScript.getBackgrounds response)) l.
Proof.
  intros Himg Hbgs. unfold TestScript.runTests.
  rewrite decide_False by (by destruct images).
  rewrite decide_False by (by destruct (TestScript.getBackgrounds response)).
  destruct (backgrounds_loop_inv images (TestScript.getBackgrounds response) results Himg
              (TestScript.getBackgrounds response) []
              (TestScript.mkLoop TestScript.stats_init 0 0 []) eq_refl)
    as (l & Hl & Hinv).
  - rewrite Nat.mul_0_r. by apply loop_inv_init.
  - simpl in Hl. rewrite Hl. by exists l.
Qed.

(** X15: the script stops before any request when it finds no image or
    the catalogue request gives no background.  Otherwise it runs to the
    end, whatever the generations answer: it makes three requests per
    background, every one counted as successful or failed, the successful
    count being the number of successful answers and the total time the sum
    of the processing times they report. *)
Theorem runTests_counts_every_generation images response results :
  match TestScript.runTests images response results with
  | TestScript.NothingToDo => images = [] \/ TestScript.getBackgrounds response = []
  | TestScript.Completed l =>
      let n := (3 * length (TestScript.getBackgrounds response))%nat in
      images <> [] /\ TestScript.getBackgrounds response <> []
      /\ TestScript.calls l = n
      /\ TestScript.st_total (TestScript.stats l) = n
      /\ TestScript.st_successful (TestScript.stats l) = TestScript.successes results 0 n
      /\ (TestScript.st_successful (TestScript.stats l)
          + TestScript.st_failed (TestScript.stats l) = n)%nat
      /\ TestScript.st_totalTime (TestScript.stats l) = TestScript.time_sum results n
  | TestScript.Crashed => False
  end.
Proof.
  destruct images as [|img images].
  { unfold TestScript.runTests. simpl. by left. }
  destruct (TestScript.getBackgrounds response) as [|bg bgs] eqn:Hbgs.
  { unfold TestScript.runTests. rewrite Hbgs. simpl. by right. }
  destruct (runTests_completed (img :: images) response results) as (l & -> & Hinv);
    [done|by rewrite Hbgs|].
  rewrite Hbgs in Hinv. destruct Hinv as (_ & Hc & Ht & Hs & Hsf & Htt & _).
  cbv zeta. unfold TestScript.testsPerBackground in *. by repeat split.
Qed.

(** X16: the requests of a run, in order: request number [i] (from 0)
    sends image number [i mod m] of the [m] images found, for background
    number [i / 3] of the catalogue answer, with configuration number
    [i mod 5] of the five defaults.  A pause of 2000 ms follows every
    request but the last. *)
Theorem runTests_requests_in_order images response results l :
  TestScript.runTests images response results = TestScript.Completed l ->
  TestScript.trace l ++ [TestScript.Delay 2000]
  = flat_map
      (fun i =>
         [TestScript.Generate
            (default "" (images !! (i mod length images)%nat))
            (default "" (bd_id <$> TestScript.getBackgrounds response !! (i / 3)%nat))
            (default (TestScript.mkConfig "" "")
               (TestScript.defaultConfigs !! (i mod 5)%nat));
          TestScript.Delay 2000])
      (seq 0 (3 * length (TestScript.getBackgrounds response))).
Proof.
  intros Hrun.
  destruct images as [|img images]; [discriminate|].
  destruct (TestScript.getBackgrounds response) as [|bg bgs] eqn:Hbgs.
  { unfold TestScript.runTests in Hrun. rewrite Hbgs in Hrun. discriminate. }
  destruct (runTests_completed (img :: images) response results) as (l' & Hl' & Hinv);
    [done|by rewrite Hbgs|].
  rewrite Hrun in Hl'. injection Hl' as <-. rewrite Hbgs in Hinv.
  destruct Hinv as (_ & _ & _ & _ & _ & _ & Htr).
  rewrite decide_True in Htr by done. exact Htr.
Qed.

Lemma runTests_requests_in_order_witness :
  let bg := mkData "tcs50-vondelpark" "Vondelpark" "" "/backgrounds/TCS50-Vondelpark.png" in
  let results := fun i : nat =>
    if (i =? 1)%nat then TestScript.Failure "HTTP 500"
    else TestScript.Success "out.png" (Some 8200) in
  exists l,
    TestScript.runTests ["a.jpg"; "b.png"] (Some (mkCategories [] [] [bg])) results
    = TestScript.Completed l
    /\ TestScript.trace l
       = [ TestScript.Generate "a.jpg" "tcs50-vondelpark" (TestScript.mkConfig "male" "medium");
           TestScript.Delay 2000;
           TestScript.Generate "b.png" "tcs50-vondelpark" (TestScript.mkConfig "female" "medium");
           TestScript.Delay 2000;
           TestScript.Generate "a.jpg" "tcs50-vondelpark"
             (TestScript.mkConfig "non-binary" "medium") ].
Proof.
  intros bg results.
  destruct (TestScript.runTests ["a.jpg"; "b.png"] (Some (mkCategories [] [] [bg])) results)
    as [|l|] eqn:Hrun; [vm_compute in Hrun; discriminate| |vm_compute in Hrun; discriminate].
  exists l. split; [done|].
  apply (app_inv_tail [TestScript.Delay 2000]).
  rewrite (runTests_requests_in_order _ _ _ _ Hrun). vm_compute. reflexivity.
Defined.

Lemma backgrounds_loop_by images backgrounds results :
  images <> [] ->
  NoDup (bd_id <$> backgrounds) ->
  forall rest done l,
    backgrounds = done ++ rest ->
    TestScript.loop_inv images backgrounds results
      (TestScript.testsPerBackground * length done) l ->
    TestScript.by_inv results done (TestScript.st_byBackground (TestScript.stats l)) ->
    exists l',
      TestScript.backgrounds_loop images results (length backgrounds) (length done) rest l
      = Some l'
      /\ TestScript.by_inv results backgrounds
           (TestScript.st_byBackground (TestScript.stats l')).
Proof.
  intros Himg Hnd. induction rest as [|bg rest IH]; intros done l Hbgs Hinv Hby.
  - rewrite app_nil_r in Hbgs. subst done. exists l. by split.
  - assert (Hbg : backgrounds !! length done = Some bg)
      by (rewrite Hbgs; apply list_lookup_middle; done).
    destruct (background_body_inv _ _ _ _ _ _ Himg Hbg Hinv) as (l1 & Hl1 & Hinv1 & Hby1).
    cbn [TestScript.backgrounds_loop]. rewrite Hl1. cbn [mbind option_bind].
    destruct (IH (done ++ [bg]) l1) as (l' & Hl' & Hby').
    + by rewrite <- app_assoc.
    + rewrite length_app. simpl. by rewrite Nat.add_1_r.
    + rewrite Hby1. apply by_inv_step; [|done].
      rewrite Hbgs, (cons_middle bg done rest), app_assoc, fmap_app in Hnd.
      by apply NoDup_app in Hnd as (Hnd & _).
    + exists l'. split; [|done]. rewrite length_app in Hl'. simpl in Hl'.
      by rewrite Nat.add_1_r in Hl'.
Qed.

(** X17: when the catalogue answer lists no background id twice, the
    per-background table of a finished run holds, for every background
    whose id is not [__proto__], the counts of exactly its own three
    results: successes and failures add up to 3.  The table never has an
    entry of its own under [__proto__]. *)
Theorem runTests_counts_per_background images response results l :
  TestScript.runTests images response results = TestScript.Completed l ->
  NoDup (bd_id <$> TestScript.getBackgrounds response) ->
  let table := TestScript.by_own (TestScript.st_byBackground (TestScript.stats l)) in
  (forall i bg,
     TestScript.getBackgrounds response !! i = Some bg -> bd_id bg <> "__proto__" ->
     exists c,
       table !! bd_id bg = Some c
       /\ TestScript.bg_successful c = TestScript.successes results (3 * i) 3
       /\ (TestScript.bg_successful c + TestScript.bg_failed c = 3)%nat)
  /\ table !! "__proto__" = None.
Proof.
  intros Hrun Hnd table. subst table.
  destruct images as [|img images]; [discriminate|].
  unfold TestScript.runTests in Hrun. rewrite decide_False in Hrun by done.
  cbv zeta in Hrun.
  destruct (decide (length (TestScript.getBackgrounds response) = 0%nat)) as [|Hlen];
    [discriminate|].
  destruct (backgrounds_loop_by (img :: images) (TestScript.getBackgrounds response) results
              ltac:(done) Hnd (TestScript.getBackgrounds response) []
              (TestScript.mkLoop TestScript.stats_init 0 0 []) eq_refl)
    as (l' & Hl' & Hby & Hproto).
  - rewrite Nat.mul_0_r. apply loop_inv_init.
    by destruct (TestScript.getBackgrounds response).
  - split; [|done]. intros i bg Hi. by rewrite lookup_nil in Hi.
  - simpl in Hl'. rewrite Hl' in Hrun. injection Hrun as <-.
    split; [|done]. intros i bg Hi Hid. rewrite (Hby i bg Hi Hid).
    eexists. split; [done|]. unfold TestScript.bg_count, TestScript.testsPerBackground.
    cbn [TestScript.bg_successful TestScript.bg_failed]. split; [done|].
    assert (TestScript.successes results (3 * i) 3 <= 3)%nat; [|lia].
    unfold TestScript.successes.
    etransitivity; [apply length_filter|]. by rewrite length_seq.
Qed.

Lemma runTests_counts_per_background_witness :
  let bg1 := mkData "tcs50-vondelpark" "Vondelpark" "" "/backgrounds/TCS50-Vondelpark.png" in
  let bg2 := mkData "__proto__" "" "" "" in
  let bg3 := mkData "future-biodomes" "Canal Biodomes" "" "" in
  let results := fun i : nat =>
    if (i =? 1)%nat || (6 <=? i)%nat then TestScript.Failure "HTTP 500"
    else TestScript.Success "out.png" (Some 8200) in
  exists l,
    TestScript.runTests ["a.jpg"] (Some (mkCategories [] [bg3] [bg1; bg2])) results
    = TestScript.Completed l
    /\ TestScript.st_successful (TestScript.stats l) = 5%nat
    /\ TestScript.by_own (TestScript.st_byBackground (TestScript.stats l)) !! "__proto__"
       = None
    /\ exists c,
         TestScript.by_own (TestScript.st_byBackground (TestScript.stats l))
           !! "future-biodomes" = Some c
         /\ TestScript.bg_successful c = 2%nat
         /\ (TestScript.bg_successful c + TestScript.bg_failed c = 3)%nat.
Proof.
  intros bg1 bg2 bg3 results.
  destruct (TestScript.runTests ["a.jpg"] (Some (mkCategories [] [bg3] [bg1; bg2])) results)
    as [|l|] eqn:Hrun; [vm_compute in Hrun; discriminate| |vm_compute in Hrun; discriminate].
  exists l. split; [done|].
  destruct (runTests_counts_per_background _ _ _ _ Hrun) as [Hall Hproto].
  { apply (bool_decide_unpack _). vm_compute. exact I. }
  destruct (Hall 0%nat bg3 eq_refl) as (c & Hc & Hs & Hsum); [done|].
  split; [|split; [exact Hproto|]].
  - vm_compute in Hrun. injection Hrun as <-. vm_compute. reflexivity.
  - exists c. split; [exact Hc|]. split; [|exact Hsum].
    rewrite Hs. vm_compute. reflexivity.
Defined.

(** ** The script against this server *)

Lemma in_category_ids p entries bg :
  bg ∈ in_category p entries ->
  exists e, e ∈ entries /\ bd_id bg = cat_id e /\ String.prefix p (cat_id e) = true.
Proof.
  unfold in_category. intros (e & -> & [Hp He]%list_elem_of_filter)%list_elem_of_fmap.
  by exists e.
Qed.

(** X18: when the script runs against the catalogue endpoint of this
    server, every request it sends names a background of the server's
    catalogue, one whose id starts with one of the three category
    prefixes, together with one of the images found and one of the five
    default configurations. *)
Theorem script_requests_catalogue_backgrounds images entries results l :
  TestScript.runTests images (Some (api_backgrounds entries)) results
  = TestScript.Completed l ->
  forall img bgId cfg,
    TestScript.Generate img bgId cfg ∈ TestScript.trace l ->
    img ∈ images
    /\ cfg ∈ TestScript.defaultConfigs
    /\ exists e, e ∈ entries /\ cat_id e = bgId
         /\ (String.prefix "amsterdam750-" bgId = true
             \/ String.prefix "future-" bgId = true
             \/ String.prefix "tcs50-" bgId = true).
Proof.
  intros Hrun img bgId cfg Hin.
  destruct images as [|img0 images]; [discriminate|].
  set (bgs := TestScript.getBackgrounds (Some (api_backgrounds entries))) in *.
  assert (Hbgs : bgs <> []).
  { intros E. unfold TestScript.runTests in Hrun. fold bgs in Hrun.
    rewrite E in Hrun. discriminate. }
  destruct (runTests_completed (img0 :: images) (Some (api_backgrounds entries)) results)
    as (l' & Hl' & Hinv); [done|done|].
  rewrite Hrun in Hl'. injection Hl' as <-. fold bgs in Hinv.
  destruct Hinv as (_ & _ & _ & _ & _ & _ & Htr).
  rewrite decide_True in Htr by done.
  assert (Hin' : TestScript.Generate img bgId cfg
                 ∈ TestScript.paced_requests (img0 :: images) bgs
                     (TestScript.testsPerBackground * length bgs)).
  { rewrite <- Htr. apply elem_of_app. by left. }
  unfold TestScript.paced_requests in Hin'.
  apply list_elem_of_In, in_flat_map in Hin' as (i & Hi%in_seq & Hreq%list_elem_of_In).
  apply elem_of_cons in Hreq as [Hreq|Hreq];
    [|apply list_elem_of_singleton in Hreq; discriminate].
  unfold TestScript.request, TestScript.testsPerBackground in *.
  destruct (lookup_lt_is_Some_2 (img0 :: images) (i mod length (img0 :: images)))
    as [x Hx]; [by apply Nat.mod_upper_bound|].
  destruct (lookup_lt_is_Some_2 TestScript.defaultConfigs
              (i mod length TestScript.defaultConfigs)) as [c Hc];
    [by apply Nat.mod_upper_bound|].
  destruct (lookup_lt_is_Some_2 bgs (i / 3)) as [bg Hbg];
    [apply Nat.Div0.div_lt_upper_bound; lia|].
  rewrite Hx, Hc, Hbg in Hreq. cbn [default from_option id fmap option_fmap option_map] in Hreq.
  injection Hreq as -> -> ->.
  split; [by eapply list_elem_of_lookup_2|]. split; [by eapply list_elem_of_lookup_2|].
  apply list_elem_of_lookup_2 in Hbg. subst bgs.
  unfold TestScript.getBackgrounds, api_backgrounds in Hbg.
  rewrite api_backgrounds_fold in Hbg. cbn [amsterdam750 futureofrunning tcs50 app] in Hbg.
  apply elem_of_app in Hbg as [Hbg|Hbg]; [|apply elem_of_app in Hbg as [Hbg|Hbg]];
    apply in_category_ids in Hbg as (e & He & -> & Hp); exists e; eauto.
Qed.

Lemma script_requests_catalogue_backgrounds_witness :
  exists l,
    TestScript.runTests ["a.jpg"] (Some (api_backgrounds BACKGROUNDS_entries))
      (fun _ => TestScript.Failure "HTTP 500")
    = TestScript.Completed l
    /\ TestScript.calls l = 27%nat
    /\ exists e, e ∈ BACKGROUNDS_entries /\ cat_id e = "amsterdam750-flowermarket"
         /\ (String.prefix "amsterdam750-" "amsterdam750-flowermarket" = true
             \/ String.prefix "future-" "amsterdam750-flowermarket" = true
             \/ String.prefix "tcs50-" "amsterdam750-flowermarket" = true).
Proof.
  destruct (TestScript.runTests ["a.jpg"] (Some (api_backgrounds BACKGROUNDS_entries))
              (fun _ => TestScript.Failure "HTTP 500"))
    as [|l|] eqn:Hrun; [vm_compute in Hrun; discriminate| |vm_compute in Hrun; discriminate].
  pose proof Hrun as Hl. vm_compute in Hl. injection Hl as <-.
  eexists. split; [reflexivity|]. split; [vm_compute; reflexivity|].
  apply (script_requests_catalogue_backgrounds _ _ _ _ Hrun "a.jpg"
           "amsterdam750-flowermarket" (TestScript.mkConfig "male" "medium")).
  vm_compute. apply list_elem_of_here.
Defined.
